(** * Multi-Brokerage-Trades: the shared client layer and the orchestrator

    A shallow embedding of [src/trading_clients/base_client.py] (module
    [Base]) and of the orchestration code of [src/strategy.py] (module
    [Strategy]).

    - Python [float] is IEEE 754 binary64: it is modelled by Rocq's primitive
      floats, whose operations are the same binary64 operations.
    - [Dict[int, str]] (the account table) is an insertion-ordered dictionary
      whose order is observable ([accounts.values()]): an association list.
    - [Dict[str, float]] (a holdings snapshot, the brokerage totals) is used
      as a map only: a [gmap string float].
    - A coroutine that may raise is a state-passing function returning an
      [outcome]; [await] is sequencing in the monad [M]. *)

From Stdlib Require Import ZArith Floats String Sorted.
From stdpp Require Import base option list strings gmap.

Local Open Scope string_scope.
Local Open Scope list_scope.

(** ** Outcomes of a call: a value, or a propagating Python exception *)

Inductive exn : Type :=
| Exception (msg : string)
| TimeoutError.

Inductive outcome (A : Type) : Type :=
| Ret (a : A)
| Raise (e : exn).
Arguments Ret {A} a.
Arguments Raise {A} e.

(** ** Observable effects of the shared layer *)

(** The argument of [asyncio.sleep] in [get_trade_delay]:
    [random.uniform(4, 6)] or the constant [1]. *)
Inductive delay_time : Type :=
| RandomUniform (lo hi : Z)
| Seconds (n : Z).

(** The log lines of base_client.py, with the values their f-strings
    interpolate, and the grand total that [get_all_account_balances] of
    strategy.py reports (the other log lines and prints of strategy.py carry
    no value the development needs and are left out). *)
Inductive log_line : Type :=
| NotAuthenticated
| NotTradable (ticker brokerage : string)
| MarketClosed
| AlreadyHasShare (brokerage : string) (account_number : option Z) (ticker : string)
| DoesNotHaveShare (brokerage : string) (account_number : option Z) (ticker : string)
| InsufficientFunds (brokerage : string) (account_number : option Z) (ticker : string)
| BuyOrderPlaced (brokerage : string) (account_number : option Z) (ticker : string) (price : float)
| SellOrderPlaced (brokerage : string) (account_number : option Z) (ticker : string) (price : float)
| GrandTotal (total_accnts : nat) (grand_total : float).

Inductive event : Type :=
| Warning (l : log_line)
| Info (l : log_line)
| Sleep (d : delay_time).

(** The state a coroutine of the shared layer runs in: the state [W] of the
    outside world (venue, clock), which only the venue primitives touch, and
    the trace of effects the shared layer itself performed. *)
Record state (W : Type) : Type := mkState {
  world : W;
  trace : list event
}.
Arguments mkState {W} world trace.
Arguments world {W} s.
Arguments trace {W} s.

Definition M (W A : Type) : Type := state W -> outcome A * state W.

Definition ret {W A} (a : A) : M W A := fun s => (Ret a, s).

Definition bind {W A B} (c : M W A) (k : A -> M W B) : M W B :=
  fun s =>
    match c s with
    | (Ret a, s') => k a s'
    | (Raise e, s') => (Raise e, s')
    end.

Notation "x <~ c ;; k" := (bind c (fun x => k))
  (at level 100, c at next level, right associativity).
Notation "c ;;; k" := (bind c (fun _ => k))
  (at level 100, right associativity).

(** [try: ... except Exception:], as far as catching goes: the outcome of the
    body becomes a value. *)
Definition try_ {W A} (c : M W A) : M W (outcome A) :=
  fun s => let (r, s') := c s in (Ret r, s').

(** A venue primitive acts on the world only. *)
Definition call {W A} (f : W -> outcome A * W) : M W A :=
  fun s =>
    let (r, w') := f (world s) in (r, mkState w' (trace s)).

Definition emit {W} (e : event) : M W unit :=
  fun s => (Ret tt, mkState (world s) (trace s ++ [e])).

(** Number of [asyncio.sleep] calls recorded in a trace. *)
Definition is_sleep (e : event) : bool :=
  match e with Sleep _ => true | _ => false end.

Definition sleeps (t : list event) : nat := length (filter (fun e => is_sleep e = true) t).

(** ** base_client.py *)

Module Base.

(** The instance attributes set by [BaseClient.__init__]. *)
Record BaseClient : Type := mkClient {
  brokerage_name : string;
  transaction_fee : float;
  delay : bool;
  concur_trades : Z;
  authenticated : bool;
  accounts : list (Z * string)
}.

(** The abstract methods a subclass supplies, and the market clock that
    the static method [is_market_open] reads. *)
Record Venue (W : Type) : Type := mkVenue {
  is_market_open : W -> outcome bool * W;
  is_tradable : string -> W -> outcome bool * W;
  get_account_balance : string -> W -> outcome (option float) * W;
  get_stock_holdings : string -> W -> outcome (option (gmap string float)) * W;
  _place_buy_orders : string -> string -> float -> string -> W -> outcome bool * W;
  _place_sell_orders : string -> string -> float -> string -> W -> outcome bool * W
}.
Arguments is_market_open {W} v.
Arguments is_tradable {W} v.
Arguments get_account_balance {W} v.
Arguments get_stock_holdings {W} v.
Arguments _place_buy_orders {W} v.
Arguments _place_sell_orders {W} v.

(** [next((num for num, acc_id in self.accounts.items() if acc_id == account_id), None)] *)
Fixpoint get_account_number_from_id (accts : list (Z * string)) (account_id : string)
  : option Z :=
  match accts with
  | [] => None
  | (num, acc_id) :: rest =>
      if String.eqb acc_id account_id then Some num
      else get_account_number_from_id rest account_id
  end.

(** The fixed buffer [0.2] of the funds check, as the binary64 value the
    literal denotes. *)
Definition buffer : float := 0x1.999999999999ap-3%float.

Section Client.
Context {W : Type}.
Variable self : BaseClient.
Variable venue : Venue W.

Definition account_number (account_id : string) : option Z :=
  get_account_number_from_id (accounts self) account_id.

(** Truth value of [holdings]: [None] and the empty dict are falsy. *)
Definition truthy (holdings : option (gmap string float)) : bool :=
  match holdings with
  | None => false
  | Some h => negb (Nat.eqb (size h) 0)
  end.

(** [ticker in holdings] *)
Definition contains (h : gmap string float) (ticker : string) : bool :=
  match h !! ticker with Some _ => true | None => false end.

(** [has_position]: [ticker in holdings if holdings else False].  The
    caller tests the result against [None], so the result is given the type
    of an optional boolean; this body never returns [None]. *)
Definition holds (holdings : option (gmap string float)) (ticker : string) : bool :=
  if truthy holdings
  then match holdings with Some h => contains h ticker | None => false end
  else false.

Definition has_position (account_id ticker : string) : M W (option bool) :=
  holdings <~ call (get_stock_holdings venue account_id) ;;
  ret (Some (holds holdings ticker)).

(** Lines 73-83: the funds check, for a buy only. *)
Definition funds_check (account_id ticker : string) (price : float) (side : string)
  : M W bool :=
  if String.eqb side "buy" then
    account_balance <~ call (get_account_balance venue account_id) ;;
    if match account_balance with
       | None => true
       | Some b => PrimFloat.ltb b (price + transaction_fee self + buffer)%float
       end
    then
      emit (Warning (InsufficientFunds (brokerage_name self) (account_number account_id) ticker)) ;;;
      ret false
    else ret true
  else ret true.

Definition check_preconditions (account_id ticker : string) (price : float) (side : string)
  : M W bool :=
  if negb (authenticated self) then
    emit (Warning NotAuthenticated) ;;; ret false
  else
    tradable <~ call (is_tradable venue ticker) ;;
    if negb tradable then
      emit (Warning (NotTradable ticker (brokerage_name self))) ;;; ret false
    else
      market_open <~ call (is_market_open venue) ;;
      if negb market_open then
        emit (Warning MarketClosed) ;;; ret false
      else
        has_pos <~ has_position account_id ticker ;;
        match has_pos with
        | Some hp =>
            if String.eqb side "buy" && hp then
              emit (Warning (AlreadyHasShare (brokerage_name self) (account_number account_id) ticker)) ;;;
              ret false
            else if String.eqb side "sell" && negb hp then
              emit (Warning (DoesNotHaveShare (brokerage_name self) (account_number account_id) ticker)) ;;;
              ret false
            else funds_check account_id ticker price side
        | None => funds_check account_id ticker price side
        end.

(** [random.uniform(4, 6) if self.delay else 1], then [asyncio.sleep]. *)
Definition get_trade_delay : M W unit :=
  emit (Sleep (if delay self then RandomUniform 4 6 else Seconds 1)).

Definition place_buy_orders (account_id ticker : string) (price : float) (order_type : string)
  : M W bool :=
  ok <~ check_preconditions account_id ticker price "buy" ;;
  if negb ok then ret false
  else
    placed <~ call (_place_buy_orders venue account_id ticker price order_type) ;;
    if placed then
      emit (Info (BuyOrderPlaced (brokerage_name self) (account_number account_id) ticker price)) ;;;
      get_trade_delay ;;;
      ret true
    else
      get_trade_delay ;;;
      ret false.

Definition place_sell_orders (account_id ticker : string) (price : float) (order_type : string)
  : M W bool :=
  ok <~ check_preconditions account_id ticker price "sell" ;;
  if negb ok then ret false
  else
    placed <~ call (_place_sell_orders venue account_id ticker price order_type) ;;
    if placed then
      emit (Info (SellOrderPlaced (brokerage_name self) (account_number account_id) ticker price)) ;;;
      get_trade_delay ;;;
      ret true
    else
      get_trade_delay ;;;
      ret false.

End Client.

End Base.

(** ** strategy.py *)

(** [str.lower] on the characters of an answer typed at the prompt (the
    letters A-Z; other bytes are unchanged). *)
Definition lower_ascii (c : Ascii.ascii) : Ascii.ascii :=
  let n := Ascii.nat_of_ascii c in
  if Nat.leb 65 n && Nat.leb n 90 then Ascii.ascii_of_nat (n + 32) else c.

Fixpoint lower (s : string) : string :=
  match s with
  | EmptyString => EmptyString
  | String c rest => String (lower_ascii c) (lower rest)
  end.

Module Strategy.
Import Base.

(** A client object: its attributes, the venue behind it, and its
    [authenticate] coroutine as run under [asyncio.timeout(30)]: from the
    current attributes and world it yields a boolean or an exception
    ([TimeoutError] when the time limit expires), the attributes it leaves
    ([authenticated], [accounts]) and the new world. *)
Record Client (W : Type) : Type := mkC {
  self : BaseClient;
  venue : Venue W;
  authenticate : BaseClient -> W -> outcome bool * BaseClient * W
}.
Arguments mkC {W} self venue authenticate.
Arguments self {W} _.
Arguments venue {W} _.
Arguments authenticate {W} _.

(** [TradingApp]: clients are identified by their position in [clients]
    (object identity), so [authenticated_clients] is a list of positions. *)
Record TradingApp (W : Type) : Type := mkApp {
  clients : list (Client W);
  initialized : bool;
  authenticated_clients : list nat
}.
Arguments mkApp {W} clients initialized authenticated_clients.
Arguments clients {W} _.
Arguments initialized {W} _.
Arguments authenticated_clients {W} _.

(** [TradingApp.__init__], for a given list of clients. *)
Definition new_app {W} (cs : list (Client W)) : TradingApp W := mkApp cs false [].

(** [accounts.values()] *)
Definition values (accts : list (Z * string)) : list string := map snd accts.

(** [list.remove(x)]: drops the first occurrence. *)
Fixpoint remove_first (x : nat) (l : list nat) : list nat :=
  match l with
  | [] => []
  | y :: rest => if Nat.eqb x y then rest else y :: remove_first x rest
  end.

Section App.
Context {W : Type}.

(** [input(prompt)]: the operator's answer, read from the world. *)
Variable input : string -> W -> string * W.

Definition ask (prompt : string) : M W string :=
  fun s => let (answer, w') := input prompt (world s) in (Ret answer, mkState w' (trace s)).

(** *** Authentication lifecycle *)

Definition run_authenticate (c : Client W) : M W (outcome bool * Client W) :=
  fun s =>
    let '(r, self', w') := authenticate c (self c) (world s) in
    (Ret (r, mkC self' (venue c) (authenticate c)), mkState w' (trace s)).

Definition _verify_account_access (c : Client W) : M W bool :=
  r <~ try_ (match accounts (self c) with
             | [] => ret false
             | (_, first_account) :: _ =>
                 balance <~ call (get_account_balance (venue c) first_account) ;;
                 match balance with
                 | None => ret false
                 | Some _ => ret true
                 end
             end) ;;
  match r with
  | Ret b => ret b
  | Raise _ => ret false
  end.

(** One iteration of the loop of [initialize], for the client at position
    [i]: the client as [authenticate] left it, and the authenticated list. *)
Definition authenticate_client (i : nat) (c : Client W) (auth : list nat)
  : M W (Client W * list nat) :=
  ra <~ run_authenticate c ;;
  match ra with
  | (Ret true, c') =>
      let auth' := (auth ++ [i])%list in
      verified <~ _verify_account_access c' ;;
      if negb verified then ret (c', remove_first i auth')
      else ret (c', auth')
  | (Ret false, c') => ret (c', auth)
  | (Raise _, c') => ret (c', auth)
  end.

Fixpoint authenticate_clients (i : nat) (cs : list (Client W)) (auth : list nat)
  : M W (list (Client W) * list nat) :=
  match cs with
  | [] => ret ([], auth)
  | c :: rest =>
      r <~ authenticate_client i c auth ;;
      let (c', auth') := r in
      r' <~ authenticate_clients (S i) rest auth' ;;
      let (rest', auth'') := r' in
      ret (c' :: rest', auth'')
  end.

Definition degraded_prompt : string :=
  "Some clients failed to authenticate. Continue with authenticated clients only? (yes/no): ".

(** [initialize].  Its own log lines (the banner and, on a second call, the
    warning that the app is already initialized, among others) are lines of
    strategy.py and are not recorded in the trace. *)
Definition initialize (app : TradingApp W) : M W (bool * TradingApp W) :=
  if initialized app then ret (true, app)
  else
    r <~ authenticate_clients 0 (clients app) [] ;;
    let (cs, auth) := r in
    let app1 := mkApp cs false auth in
    match auth with
    | [] => ret (false, app1)
    | _ :: _ =>
        let total_clients := length cs in
        let successful_clients := length auth in
        if Nat.ltb successful_clients total_clients then
          response <~ ask degraded_prompt ;;
          if negb (String.eqb (lower response) "yes") then ret (false, app1)
          else ret (true, mkApp cs true auth)
        else ret (true, mkApp cs true auth)
    end.

(** *** Trade execution: semaphore-bounded fan-out, joint await

    [asyncio.Semaphore] and [asyncio.gather] belong to Python's library; they
    are given their documented behaviour.  A semaphore is a counter:
    entering [async with semaphore] needs a positive counter and decrements
    it, leaving increments it.  [gather] wraps the coroutines in tasks that
    the event loop interleaves, and resumes its caller with the list of
    results in task order once all have returned, or with the first
    exception as soon as a task raises (without cancelling the others).
    The event loop's choices are a parameter, the [schedule]; a placement
    call takes effect at the moment it returns. *)

(** The inner coroutine [place_trade] without its [async with semaphore]. *)
Definition place_trade (c : Client W) (action ticker : string) (price : float)
    (account_id : string) : M W bool :=
  if String.eqb action "buy"
  then place_buy_orders (self c) (venue c) account_id ticker price "market"
  else place_sell_orders (self c) (venue c) account_id ticker price "market".

(** A task of the fan-out: waiting for the semaphore, inside
    [async with semaphore] with its placement call in flight, or done. *)
Inductive task : Type :=
| Pending
| InFlight
| Finished (r : outcome bool).

(** The event loop's view during [asyncio.gather]: the semaphore's counter,
    the tasks in account order, and the state the placement calls act on. *)
Record sched : Type := mkSched {
  permits : Z;
  tasks : list task;
  st : state W
}.

(** What the event loop may do next: let task [i] acquire the semaphore and
    enter its placement call, or let the placement call of task [i] return,
    which releases the semaphore. *)
Inductive choice : Type :=
| Enter (i : nat)
| Leave (i : nat).

Section Trades.
Variable client : Client W.
Variables action ticker : string.
Variable price : float.

Definition step (s : sched) (ch : choice) : option sched :=
  match ch with
  | Enter i =>
      match tasks s !! i with
      | Some Pending =>
          if (0 <? permits s)%Z
          then Some (mkSched (permits s - 1) (<[i := InFlight]> (tasks s)) (st s))
          else None
      | _ => None
      end
  | Leave i =>
      match tasks s !! i, values (accounts (self client)) !! i with
      | Some InFlight, Some account_id =>
          let (r, st') := place_trade client action ticker price account_id (st s) in
          Some (mkSched (permits s + 1) (<[i := Finished r]> (tasks s)) st')
      | _, _ => None
      end
  end.

Fixpoint run (s : sched) (schedule : list choice) : option sched :=
  match schedule with
  | [] => Some s
  | ch :: rest =>
      match step s ch with
      | Some s' => run s' rest
      | None => None
      end
  end.

(** [semaphore = asyncio.Semaphore(client.concur_trades)] and
    [tasks = [place_trade(account_id) for account_id in accounts.values()]]. *)
Definition start (s : state W) : sched :=
  mkSched (concur_trades (self client))
          (map (fun _ => Pending) (values (accounts (self client)))) s.

Fixpoint first_exception (ts : list task) : option exn :=
  match ts with
  | [] => None
  | Finished (Raise e) :: _ => Some e
  | _ :: rest => first_exception rest
  end.

Fixpoint results_of (ts : list task) : option (list bool) :=
  match ts with
  | [] => Some []
  | Finished (Ret b) :: rest =>
      match results_of rest with
      | Some bs => Some (b :: bs)
      | None => None
      end
  | _ :: _ => None
  end.

(** When [asyncio.gather] resumes its caller: with the exception of a task
    that raised, or with all results, in task order, once every task has
    returned. *)
Definition settled (ts : list task) : option (outcome (list bool)) :=
  match first_exception ts with
  | Some e => Some (Raise e)
  | None =>
      match results_of ts with
      | Some bs => Some (Ret bs)
      | None => None
      end
  end.

(** [await asyncio.gather( *tasks )] under the event loop's [schedule]:
    [None] when the schedule is not one the event loop can follow, or stops
    before gather has its answer.  With an exception it answers in the state
    of the moment the task raised; the sibling tasks, which are not
    cancelled, run on in the event loop after that, so the state given with
    an exception is not the final one. *)
Fixpoint gather (s : sched) (schedule : list choice)
  : option (outcome (list bool) * state W) :=
  match settled (tasks s) with
  | Some r => Some (r, st s)
  | None =>
      match schedule with
      | [] => None
      | ch :: rest =>
          match step s ch with
          | Some s' => gather s' rest
          | None => None
          end
      end
  end.

(** [sum(results)] *)
Definition success_count (results : list bool) : nat :=
  length (filter (fun b => b = true) results).

(** [execute_client_trades], under the event loop's [schedule]. *)
Definition execute_client_trades (schedule : list choice) (s : state W)
  : option (outcome (nat * nat) * state W) :=
  match accounts (self client) with
  | [] => Some (Ret (0, 0), s)
  | _ :: _ =>
      if (concur_trades (self client) <? 0)%Z
      then Some (Raise (Exception "Semaphore initial value must be >= 0"), s)
      else
        match gather (start s) schedule with
        | Some (Ret results, s') =>
            Some (Ret (success_count results, length (accounts (self client))), s')
        | Some (Raise e, s') => Some (Raise e, s')
        | None => None
        end
  end.

(** Number of placement calls in flight. *)
Definition is_in_flight (t : task) : bool :=
  match t with InFlight => true | _ => false end.

Definition in_flight (ts : list task) : nat :=
  length (filter (fun t => is_in_flight t = true) ts).

(** The tasks whose placement call a schedule lets return. *)
Fixpoint leaves (schedule : list choice) : list nat :=
  match schedule with
  | [] => []
  | Leave i :: rest => i :: leaves rest
  | Enter _ :: rest => leaves rest
  end.

End Trades.

(** *** Balance aggregation *)

(** [balance if balance else 0.0]: [None] and a zero are falsy. *)
Definition or_zero (balance : option float) : float :=
  match balance with
  | None => 0%float
  | Some b => if PrimFloat.eqb b 0%float then 0%float else b
  end.

(** [asyncio.gather] over the balance queries of one client, which the
    event loop starts in account order.  When a query raises, the model
    answers with the exception in the world that query left; in the event
    loop the queries after it have been started as well, so the world
    reported with an exception is that of the moment of the exception, not
    the final one. *)
Fixpoint gather_balances (v : Venue W) (ids : list string) : M W (list (option float)) :=
  match ids with
  | [] => ret []
  | account_number :: rest =>
      b <~ call (get_account_balance v account_number) ;;
      bs <~ gather_balances v rest ;;
      ret (b :: bs)
  end.

(** The inner [for idx, balance in enumerate(balances)] loop. *)
Definition brokerage_total (balances : list (option float)) : float :=
  fold_left (fun total balance => (total + or_zero balance)%float) balances 0%float.

Fixpoint balances_loop (cs : list (Client W)) (brokerage_totals : gmap string float)
    (grand_total : float) : M W (gmap string float * float) :=
  match cs with
  | [] => ret (brokerage_totals, grand_total)
  | c :: rest =>
      match accounts (self c) with
      | [] => balances_loop rest brokerage_totals grand_total
      | _ :: _ =>
          balances <~ gather_balances (venue c) (values (accounts (self c))) ;;
          let total := brokerage_total balances in
          balances_loop rest (<[brokerage_name (self c) := total]> brokerage_totals)
                        (grand_total + total)%float
      end
  end.

Definition total_accnts (cs : list (Client W)) : nat :=
  foldr (fun c n => length (accounts (self c)) + n) 0 cs.

Definition get_all_account_balances (app : TradingApp W) : M W (gmap string float) :=
  r <~ balances_loop (clients app) ∅ 0%float ;;
  let (brokerage_totals, grand_total) := r in
  emit (Info (GrandTotal (total_accnts (clients app)) grand_total)) ;;;
  ret brokerage_totals.

End App.

End Strategy.

(** ** Vocabulary of the specification *)

(** The tri-state holding result of the specification: [Unknown] when the
    holdings could not be fetched, otherwise [Held] or [NotHeld] according to
    whether the ticker appears in the snapshot. *)
Inductive holding : Type := Held | NotHeld | Unknown.

Definition position_state (holdings : option (gmap string float)) (ticker : string)
  : holding :=
  match holdings with
  | None => Unknown
  | Some h => if Base.contains h ticker then Held else NotHeld
  end.

(** The first three checks of the precondition evaluator pass from state
    [s]: the backend is authenticated, the ticker is tradable and the market
    is open; [w2] is the world after the two queries. *)
Definition gates_pass {W} (self : Base.BaseClient) (venue : Base.Venue W) (ticker : string)
    (s : state W) (w2 : W) : Prop :=
  Base.authenticated self = true /\
  exists w1, Base.is_tradable venue ticker (world s) = (Ret true, w1) /\
             Base.is_market_open venue w1 = (Ret true, w2).

(** The sleep that the trade-delay policy of a backend performs. *)
Definition trade_delay (self : Base.BaseClient) : event :=
  Sleep (if Base.delay self then RandomUniform 4 6 else Seconds 1).

(** A venue that differs from [v] in its balance query only. *)
Definition with_balance {W} (v : Base.Venue W)
    (gb : string -> W -> outcome (option float) * W) : Base.Venue W :=
  Base.mkVenue W (Base.is_market_open v) (Base.is_tradable v) gb
    (Base.get_stock_holdings v) (Base._place_buy_orders v) (Base._place_sell_orders v).

Section Lifecycle.
Context {W : Type}.
Variable input : string -> W -> string * W.

(** Client [c] succeeds authentication and verification from state [s]:
    [authenticate] returns true in time and the account access check
    confirms a reachable account with a retrievable balance. *)
Definition succeeds (c : Strategy.Client W) (s : state W) : bool :=
  match Strategy.run_authenticate c s with
  | (Ret (Ret true, c'), s1) =>
      match Strategy._verify_account_access c' s1 with
      | (Ret true, _) => true
      | _ => false
      end
  | _ => false
  end.

(** The state in which the attempt on client [c] leaves the run. *)
Definition after_attempt (c : Strategy.Client W) (s : state W) : state W :=
  snd (Strategy.authenticate_client 0 c [] s).

Fixpoint after_attempts (cs : list (Strategy.Client W)) (s : state W) : state W :=
  match cs with
  | [] => s
  | c :: rest => after_attempts rest (after_attempt c s)
  end.

(** The positions, from [i] on, of the clients that succeed in a run of the
    sequential authentication loop from state [s]. *)
Fixpoint succeeded (i : nat) (cs : list (Strategy.Client W)) (s : state W) : list nat :=
  match cs with
  | [] => []
  | c :: rest =>
      ((if succeeds c s then [i] else []) ++ succeeded (S i) rest (after_attempt c s))%list
  end.

(** The operator's answer to the degraded-mode prompt, asked after the
    authentication loop over the clients of [app]. *)
Definition degraded_answer (app : Strategy.TradingApp W) (s : state W) : string :=
  fst (input Strategy.degraded_prompt (world (after_attempts (Strategy.clients app) s))).

End Lifecycle.

(** The semaphore invariant of the fan-out: one task per account, a counter
    that is never negative, and counter plus calls in flight is the cap. *)
Definition sem_inv {W} (client : Strategy.Client W) (sch : @Strategy.sched W) : Prop :=
  length (Strategy.tasks sch)
    = length (Strategy.values (Base.accounts (Strategy.self client))) /\
  (0 <= Strategy.permits sch)%Z /\
  (Strategy.permits sch + Z.of_nat (Strategy.in_flight (Strategy.tasks sch))
   = Base.concur_trades (Strategy.self client))%Z.








(** Steps the event loop still has to take for a list of tasks: two for a
    pending task (enter, leave), one for a task in flight. *)
Definition steps_left (t : Strategy.task) : nat :=
  match t with
  | Strategy.Pending => 2
  | Strategy.InFlight => 1
  | Strategy.Finished _ => 0
  end.

Definition remaining (ts : list Strategy.task) : nat :=
  foldr (fun t n => steps_left t + n) 0 ts.

(** ** A small venue double

    Three accounts; account "A2" already owns one share of "XYZ"; the other
    accounts report no holdings; every balance is 100.0; orders are accepted. *)

Module Double.
Import Base.

Definition client : BaseClient :=
  mkClient "Double" 0%float false 1 true [(1%Z, "A1"); (2%Z, "A2"); (3%Z, "A3")].

Definition holdings_of (account_id : string) : option (gmap string float) :=
  if String.eqb account_id "A2" then Some {[ "XYZ" := 1%float ]}
  else if String.eqb account_id "A3" then Some {[ "ABC" := 2%float ]}
  else None.

Definition venue : Venue unit :=
  mkVenue unit
    (fun w => (Ret true, w))
    (fun _ w => (Ret true, w))
    (fun _ w => (Ret (Some 100%float), w))
    (fun account_id w => (Ret (holdings_of account_id), w))
    (fun _ _ _ _ w => (Ret true, w))
    (fun _ _ _ _ w => (Ret true, w)).

(** The same venue, whose order submission fails with an exception. *)
Definition failing_venue : Venue unit :=
  mkVenue unit
    (fun w => (Ret true, w))
    (fun _ w => (Ret true, w))
    (fun _ w => (Ret (Some 100%float), w))
    (fun account_id w => (Ret (holdings_of account_id), w))
    (fun _ _ _ _ w => (Raise (Exception "order rejected"), w))
    (fun _ _ _ _ w => (Raise (Exception "order rejected"), w)).

(** The same venue, whose order submission is refused. *)
Definition refusing_venue : Venue unit :=
  mkVenue unit
    (fun w => (Ret true, w))
    (fun _ w => (Ret true, w))
    (fun _ w => (Ret (Some 100%float), w))
    (fun account_id w => (Ret (holdings_of account_id), w))
    (fun _ _ _ _ w => (Ret false, w))
    (fun _ _ _ _ w => (Ret false, w)).

Definition s0 : state unit := mkState tt [].

(** Before login a client has no account table and is not authenticated. *)
Definition logged_out : BaseClient := mkClient "Double" 0%float false 1 false [].

(** A client whose login succeeds and populates the account table. *)
Definition good : Strategy.Client unit :=
  Strategy.mkC logged_out venue (fun _ w => (Ret true, client, w)).

(** The same client once logged in. *)
Definition ready : Strategy.Client unit :=
  Strategy.mkC client venue (fun me w => (Ret true, me, w)).

(** A logged-in client of a venue that allows two concurrent trades. *)
Definition ready2 : Strategy.Client unit :=
  Strategy.mkC (mkClient "Double2" 0%float false 2 true [(1%Z, "A1"); (2%Z, "A2"); (3%Z, "A3")])
    venue (fun me w => (Ret true, me, w)).

(** A client whose login is rejected. *)
Definition rejected : Strategy.Client unit :=
  Strategy.mkC logged_out venue (fun me w => (Ret false, me, w)).

(** A client whose login does not finish within the time limit. *)
Definition hanging : Strategy.Client unit :=
  Strategy.mkC logged_out venue (fun me w => (Raise TimeoutError, me, w)).

(** A client that logs in, but whose balances cannot be retrieved. *)
Definition unverifiable : Strategy.Client unit :=
  Strategy.mkC logged_out (with_balance venue (fun _ w => (Ret None, w)))
    (fun _ w => (Ret true, client, w)).

Definition says (answer : string) : string -> unit -> string * unit :=
  fun _ w => (answer, w).

(** The venue reporting a given balance (or none) for every account. *)
Definition venue_with (balance : option float) : Venue unit :=
  with_balance venue (fun _ w => (Ret balance, w)).

(** A balance exactly at the threshold for a price of 10.0 and no fee, and
    one computed with 0.1999 in place of the buffer. *)
Definition boundary_balance : float := (10 + 0 + buffer)%float.
Definition short_balance : float := (10 + 0 + 0x1.99652bd3c3611p-3)%float.

(** Five backends of which the first and the last succeed, and three
    backends none of which succeeds. *)
Definition mixed_app : Strategy.TradingApp unit :=
  Strategy.new_app [good; rejected; hanging; unverifiable; good].

Definition failing_app : Strategy.TradingApp unit :=
  Strategy.new_app [rejected; hanging; unverifiable].




(** The event loop taking the three tasks one after the other. *)
Definition in_turn : list Strategy.choice :=
  [Strategy.Enter 0; Strategy.Leave 0; Strategy.Enter 1; Strategy.Leave 1;
   Strategy.Enter 2; Strategy.Leave 2].

End Double.

(** ** Further vocabulary *)

(** A venue primitive that returns in every world (it never raises). *)
Definition returns {W A} (f : W -> outcome A * W) : Prop :=
  forall w, exists a w', f w = (Ret a, w').

(** A venue none of whose primitives raises. *)
Definition never_raises {W} (v : Base.Venue W) : Prop :=
  returns (Base.is_market_open v) /\
  (forall t, returns (Base.is_tradable v t)) /\
  (forall a, returns (Base.get_account_balance v a)) /\
  (forall a, returns (Base.get_stock_holdings v a)) /\
  (forall a t p o, returns (Base._place_buy_orders v a t p o)) /\
  (forall a t p o, returns (Base._place_sell_orders v a t p o)).

(** The funds threshold of a buy. *)
Definition threshold (self : Base.BaseClient) (price : float) : float :=
  (price + Base.transaction_fee self + Base.buffer)%float.

(** The placement call of a side for one account: the buy wrapper of
    base_client.py for the side "buy", its sell wrapper otherwise. *)
Definition placement_call {W} (c : Strategy.Client W) (side ticker : string) (price : float)
    (account_id : string) : M W bool :=
  if String.eqb side "buy"
  then Base.place_buy_orders (Strategy.self c) (Strategy.venue c) account_id ticker price "market"
  else Base.place_sell_orders (Strategy.self c) (Strategy.venue c) account_id ticker price "market".

(** The placement calls for the accounts at the positions [order], made one
    after another from state [s]: each position with what its call
    returned, and the state the last call left. *)
Fixpoint placements {W} (c : Strategy.Client W) (side ticker : string) (price : float)
    (order : list nat) (s : state W) : list (nat * outcome bool) * state W :=
  match order with
  | [] => ([], s)
  | i :: rest =>
      match Strategy.values (Base.accounts (Strategy.self c)) !! i with
      | Some account_id =>
          let (r, s1) := placement_call c side ticker price account_id s in
          let (log, s2) := placements c side ticker price rest s1 in
          ((i, r) :: log, s2)
      | None => placements c side ticker price rest s
      end
  end.

(** ** fennel_client.py

    The venue is reached through the [fennel_invest_api] object; the three
    calls the modelled methods make are taken as primitives on the world.  A
    response of [place_order] is a dictionary, of which the code looks at the
    key "errors" only. *)

Module Fennel.
Import Base.

Record SDK (W : Type) : Type := mkSDK {
  login : W -> outcome unit * W;
  get_account_ids : W -> outcome (list string) * W;
  place_order : string -> string -> string -> string -> W -> outcome (gmap string string) * W
}.
Arguments login {W} _.
Arguments get_account_ids {W} _.
Arguments place_order {W} _.

(** [super().__init__(brokerage_name="Fennel", delay=False, concur_trades=2)] *)
Definition init : BaseClient := mkClient "Fennel" 0%float false 2 false [].

(** [{idx + 1: account_id for idx, account_id in enumerate(account_ids)}] *)
Definition account_table (account_ids : list string) : list (Z * string) :=
  imap (fun idx account_id => ((Z.of_nat idx + 1)%Z, account_id)) account_ids.

Section Client.
Context {W : Type}.
Variable fennel : SDK W.

(** [get_accounts]: on an exception of the listing it logs and re-raises,
    leaving the attributes as they were. *)
Definition get_accounts (self : BaseClient) (w : W)
  : outcome (list (Z * string)) * BaseClient * W :=
  match get_account_ids fennel w with
  | (Ret account_ids, w') =>
      let accts := account_table account_ids in
      (Ret accts,
       mkClient (brokerage_name self) (transaction_fee self) (delay self)
                (concur_trades self) (authenticated self) accts,
       w')
  | (Raise e, w') => (Raise e, self, w')
  end.

Definition authenticate (self : BaseClient) (w : W) : outcome bool * BaseClient * W :=
  match login fennel w with
  | (Ret _, w1) =>
      let self1 := mkClient (brokerage_name self) (transaction_fee self) (delay self)
                            (concur_trades self) true (accounts self) in
      match get_accounts self1 w1 with
      | (Ret _, self2, w2) => (Ret true, self2, w2)
      | (Raise _, self2, w2) => (Ret false, self2, w2)
      end
  | (Raise _, w1) => (Ret false, self, w1)
  end.

(** [_place_order]: the order is sent with [price=order_type]; the price
    argument of the method is not passed on. *)
Definition _place_order (account_id ticker side : string) (price : float)
    (order_type : string) (w : W) : outcome bool * W :=
  match place_order fennel account_id ticker side order_type w with
  | (Ret response, w') =>
      match response !! "errors" with
      | Some _ => (Ret false, w')
      | None => (Ret true, w')
      end
  | (Raise _, w') => (Ret false, w')
  end.

Definition _place_buy_orders (account_id ticker : string) (price : float)
    (order_type : string) : W -> outcome bool * W :=
  _place_order account_id ticker "buy" price order_type.

Definition _place_sell_orders (account_id ticker : string) (price : float)
    (order_type : string) : W -> outcome bool * W :=
  _place_order account_id ticker "sell" price order_type.

End Client.

End Fennel.

(** ** strategy.py: what the operator types

    Answers are strings of ASCII characters; [str.strip] and [str.upper] are
    modelled on those (whitespace is the characters 9 to 13, 28 to 31 and
    32). *)

Definition is_space (c : Ascii.ascii) : bool :=
  let n := Ascii.nat_of_ascii c in
  (Nat.leb 9 n && Nat.leb n 13) || (Nat.leb 28 n && Nat.leb n 32).

Definition upper_ascii (c : Ascii.ascii) : Ascii.ascii :=
  let n := Ascii.nat_of_ascii c in
  if Nat.leb 97 n && Nat.leb n 122 then Ascii.ascii_of_nat (n - 32) else c.

Fixpoint upper (s : string) : string :=
  match s with
  | EmptyString => EmptyString
  | String c rest => String (upper_ascii c) (upper rest)
  end.

Fixpoint lstrip (s : string) : string :=
  match s with
  | EmptyString => EmptyString
  | String c rest => if is_space c then lstrip rest else s
  end.

Fixpoint rstrip (s : string) : string :=
  match s with
  | EmptyString => EmptyString
  | String c rest =>
      match rstrip rest with
      | EmptyString => if is_space c then EmptyString else String c EmptyString
      | String _ _ as rest' => String c rest'
      end
  end.

Definition strip (s : string) : string := rstrip (lstrip s).

Definition comma : Ascii.ascii := Ascii.ascii_of_nat 44.

(** [s.split(",")] *)
Fixpoint split_comma (s : string) : list string :=
  match s with
  | EmptyString => [EmptyString]
  | String c rest =>
      if Ascii.eqb c comma then EmptyString :: split_comma rest
      else match split_comma rest with
           | [] => [String c EmptyString]
           | word :: words => String c word :: words
           end
  end.

(** Number of occurrences of a character. *)
Fixpoint occurrences (c : Ascii.ascii) (s : string) : nat :=
  match s with
  | EmptyString => 0
  | String d rest => (if Ascii.eqb d c then 1 else 0) + occurrences c rest
  end.

(** The characters of a string. *)
Fixpoint chars (s : string) : list Ascii.ascii :=
  match s with
  | EmptyString => []
  | String c rest => c :: chars rest
  end.

Definition is_ascii (c : Ascii.ascii) : bool := Nat.ltb (Ascii.nat_of_ascii c) 128.

Module Workflow.
Import Base Strategy.

Section Operator.
Context {W : Type}.
Variable input : string -> W -> string * W.

(** [get_tickers] *)
Definition get_tickers (mode : Z) : M W (list string) :=
  if (mode =? 3)%Z || (mode =? 4)%Z then
    tickers_input <~ ask input "Enter a comma-separated list of tickers (e.g., AAPL,TSLA,GOOG): " ;;
    ret (map (fun ticker => upper (strip ticker)) (split_comma tickers_input))
  else
    ticker <~ ask input "Enter a single ticker: " ;;
    ret [upper (strip ticker)].

(** [get_trade_action]: the [while True] loop runs for at most [fuel] prompts;
    [None] is the loop still asking. *)
Fixpoint get_trade_action (fuel : nat) : M W (option string) :=
  match fuel with
  | 0 => ret None
  | S fuel' =>
      answer <~ ask input "Do you want to 'buy' or 'sell'?: " ;;
      let action := lower answer in
      if String.eqb action "buy" || String.eqb action "sell" then ret (Some action)
      else get_trade_action fuel'
  end.

(** The abstract method [get_stock_price] of a client, and Python's
    formatting of a price with two decimals. *)
Variable get_stock_price : Client W -> string -> W -> outcome (option float) * W.
Variable format_price : float -> string.

Definition confirm_prompt (ticker : string) (price : float) : string :=
  String.append "Confirm that you want to trade "
    (String.append ticker
       (String.append " for $" (String.append (format_price price) "? (yes/no): "))).

Fixpoint confirm_loop (fuel : nat) (ticker : string) (price : float)
  : M W (option (option (string * float))) :=
  match fuel with
  | 0 => ret None
  | S fuel' =>
      answer <~ ask input (confirm_prompt ticker price) ;;
      let confirm := lower answer in
      if String.eqb confirm "yes" then ret (Some (Some (ticker, price)))
      else if String.eqb confirm "no" then ret (Some None)
      else confirm_loop fuel' ticker price
  end.

(** [confirm_ticker]: the pair [(None, None)] is [None]; formatting a price
    that is [None] raises [TypeError]. *)
Definition confirm_ticker (fuel : nat) (client : Client W) (ticker : string)
  : M W (option (option (string * float))) :=
  tradable <~ call (is_tradable (venue client) ticker) ;;
  if tradable then
    price <~ call (get_stock_price client ticker) ;;
    match price with
    | None =>
        fun s => (Raise (Exception "unsupported format string passed to NoneType.__format__"), s)
    | Some p => confirm_loop fuel ticker p
    end
  else ret (Some None).

End Operator.

End Workflow.

(** ** strategy.py: [execute_trades]

    The function returns nothing and logs its totals; the model returns what
    it logs.  Its [asyncio.gather] runs one [execute_client_trades] per
    confirmed trade and selected client, each with a semaphore of its own;
    the event loop interleaves the placement tasks of all of them, and a
    choice names the invocation and what its task does. *)

Module Batch.
Import Base Strategy Workflow.

Definition final_prompt : string :=
  String (Ascii.ascii_of_nat 10) "Do you want to execute all these trades? (yes/no): ".

(** What [execute_trades] reports. *)
Inductive summary : Type :=
| NothingConfirmed
| Cancelled
| Executed (total_successful_trades total_trades_attempted : nat).

(** One invocation of [execute_client_trades], as the loop over the
    confirmed trades and the selected clients creates it. *)
Record job (W : Type) : Type := mkJob {
  job_client : Client W;
  job_action : string;
  job_ticker : string;
  job_price : float
}.
Arguments mkJob {W} _ _ _ _.
Arguments job_client {W} _.
Arguments job_action {W} _.
Arguments job_ticker {W} _.
Arguments job_price {W} _.

(** An invocation during the outer gather: awaiting its own tasks, or
    returned. *)
Inductive slot : Type :=
| Running (permits : Z) (ts : list task)
| Returned (r : outcome (nat * nat)).

Record pool (W : Type) : Type := mkPool {
  slots : list slot;
  pool_st : state W
}.
Arguments mkPool {W} _ _.
Arguments slots {W} _.
Arguments pool_st {W} _.

Section Batch.
Context {W : Type}.
Variable input : string -> W -> string * W.
Variable get_stock_price : Client W -> string -> W -> outcome (option float) * W.
Variable format_price : float -> string.

(** The loop over the tickers, with [confirmed_trades] as accumulator.
    [selected_clients[0]] is evaluated at each ticker. *)
Fixpoint confirm_trades (fuel : nat) (selected_clients : list (Client W))
    (tickers : list string) (confirmed_trades : list (string * float * string))
  : M W (option (list (string * float * string))) :=
  match tickers with
  | [] => ret (Some confirmed_trades)
  | ticker :: rest =>
      match selected_clients with
      | [] => fun s => (Raise (Exception "list index out of range"), s)
      | first :: _ =>
          r <~ confirm_ticker input get_stock_price format_price fuel first ticker ;;
          match r with
          | None => ret None
          | Some None => confirm_trades fuel selected_clients rest confirmed_trades
          | Some (Some (confirmed_ticker, price)) =>
              a <~ get_trade_action input fuel ;;
              match a with
              | None => ret None
              | Some action =>
                  confirm_trades fuel selected_clients rest
                    (confirmed_trades ++ [(confirmed_ticker, price, action)])
              end
          end
      end
  end.

(** The list [tasks]. *)
Definition jobs_of (selected_clients : list (Client W))
    (confirmed_trades : list (string * float * string)) : list (job W) :=
  flat_map (fun trade =>
              match trade with
              | (ticker, price, action) =>
                  map (fun client => mkJob client action ticker price) selected_clients
              end)
           confirmed_trades.

(** The first step of an invocation: it returns at once without accounts,
    raises on a negative cap, and otherwise awaits its tasks. *)
Definition launch (j : job W) : slot :=
  match accounts (self (job_client j)) with
  | [] => Returned (Ret (0, 0))
  | _ :: _ =>
      if (concur_trades (self (job_client j)) <? 0)%Z
      then Returned (Raise (Exception "Semaphore initial value must be >= 0"))
      else Running (concur_trades (self (job_client j)))
                   (map (fun _ => Pending) (values (accounts (self (job_client j)))))
  end.

Definition launch_all (jobs : list (job W)) (s : state W) : pool W :=
  mkPool (map launch jobs) s.

Section Pool.
Variable jobs : list (job W).

(** A task of invocation [j] enters or leaves; when that settles the
    invocation's own gather, the invocation returns.  An invocation whose
    gather raised is followed no further: the outer gather has raised by
    then, and what the remaining tasks of that invocation do afterwards is
    outside the model. *)
Definition pool_step (p : pool W) (ch : nat * choice) : option (pool W) :=
  match jobs !! fst ch, slots p !! fst ch with
  | Some jb, Some (Running permits ts) =>
      match Strategy.step (job_client jb) (job_action jb) (job_ticker jb) (job_price jb)
                          (mkSched permits ts (pool_st p)) (snd ch) with
      | Some sch' =>
          let slot' :=
            match settled (tasks sch') with
            | Some (Ret results) =>
                Returned (Ret (success_count results, length (accounts (self (job_client jb)))))
            | Some (Raise e) => Returned (Raise e)
            | None => Running (Strategy.permits sch') (tasks sch')
            end in
          Some (mkPool (<[fst ch := slot']> (slots p)) (st sch'))
      | None => None
      end
  | _, _ => None
  end.

Fixpoint pool_run (p : pool W) (schedule : list (nat * choice)) : option (pool W) :=
  match schedule with
  | [] => Some p
  | ch :: rest =>
      match pool_step p ch with
      | Some p' => pool_run p' rest
      | None => None
      end
  end.

Fixpoint pool_exception (l : list slot) : option exn :=
  match l with
  | [] => None
  | Returned (Raise e) :: _ => Some e
  | _ :: rest => pool_exception rest
  end.

Fixpoint pool_results (l : list slot) : option (list (nat * nat)) :=
  match l with
  | [] => Some []
  | Returned (Ret counts) :: rest =>
      match pool_results rest with
      | Some others => Some (counts :: others)
      | None => None
      end
  | _ :: _ => None
  end.

Definition pool_settled (l : list slot) : option (outcome (list (nat * nat))) :=
  match pool_exception l with
  | Some e => Some (Raise e)
  | None =>
      match pool_results l with
      | Some results => Some (Ret results)
      | None => None
      end
  end.

Fixpoint pool_gather (p : pool W) (schedule : list (nat * choice))
  : option (outcome (list (nat * nat)) * state W) :=
  match pool_settled (slots p) with
  | Some r => Some (r, pool_st p)
  | None =>
      match schedule with
      | [] => None
      | ch :: rest =>
          match pool_step p ch with
          | Some p' => pool_gather p' rest
          | None => None
          end
      end
  end.

End Pool.

(** [sum(success for success, _ in results)] and [sum(total for _, total in results)] *)
Definition total_successful (results : list (nat * nat)) : nat :=
  foldr (fun counts n => fst counts + n) 0 results.

Definition total_attempted (results : list (nat * nat)) : nat :=
  foldr (fun counts n => snd counts + n) 0 results.

(** [execute_trades], for at most [fuel] prompts per question and under the
    event loop's [schedule]; [None] when a question is still open or the
    schedule does not let the gather answer. *)
Definition execute_trades (fuel : nat) (schedule : list (nat * choice))
    (selected_clients : list (Client W)) (tickers : list string) (s : state W)
  : option (outcome summary * state W) :=
  match confirm_trades fuel selected_clients tickers [] s with
  | (Raise e, s1) => Some (Raise e, s1)
  | (Ret None, _) => None
  | (Ret (Some []), s1) => Some (Ret NothingConfirmed, s1)
  | (Ret (Some (trade :: trades)), s1) =>
      let (answer, w2) := input final_prompt (world s1) in
      let s2 := mkState w2 (trace s1) in
      if String.eqb (lower answer) "yes" then
        let jobs := jobs_of selected_clients (trade :: trades) in
        match pool_gather jobs (launch_all jobs s2) schedule with
        | Some (Ret results, s3) =>
            Some (Ret (Executed (total_successful results) (total_attempted results)), s3)
        | Some (Raise e, s3) => Some (Raise e, s3)
        | None => None
        end
      else Some (Ret Cancelled, s2)
  end.

End Batch.

(** Placement calls in flight on behalf of one client object, over all the
    invocations of a pool. *)
Definition slot_in_flight (sl : slot) : nat :=
  match sl with
  | Running _ ts => in_flight ts
  | Returned _ => 0
  end.

Definition pool_in_flight {W} (p : pool W) : nat :=
  foldr (fun sl n => slot_in_flight sl + n) 0 (slots p).

End Batch.

(** ** Vocabulary for the batch of trades *)

(** What holds of an invocation of the pool at any time: while it awaits
    its tasks, their semaphore invariant; once it has returned a pair, the
    pair is (successes, accounts) with no more successes than accounts. *)
Definition slot_ok {W} (jb : Batch.job W) (sl : Batch.slot) : Prop :=
  match sl with
  | Batch.Running permits ts =>
      length ts = length (Strategy.values (Base.accounts (Strategy.self (Batch.job_client jb)))) /\
      (0 <= permits)%Z /\
      (permits + Z.of_nat (Strategy.in_flight ts)
       = Base.concur_trades (Strategy.self (Batch.job_client jb)))%Z
  | Batch.Returned (Ret (k, n)) =>
      n = length (Base.accounts (Strategy.self (Batch.job_client jb))) /\ k <= n
  | Batch.Returned (Raise _) => True
  end.

(** The accounts of all invocations together. *)
Definition accounts_of {W} (jobs : list (Batch.job W)) : nat :=
  foldr (fun jb n => length (Base.accounts (Strategy.self (Batch.job_client jb))) + n) 0 jobs.

(** The schedule that lets the first task of each invocation enter, for the
    invocations numbered from [k]. *)
Fixpoint enter_from {W} (k : nat) (jobs : list (Batch.job W)) : list (nat * Strategy.choice) :=
  match jobs with
  | [] => []
  | _ :: rest => (k, Strategy.Enter 0) :: enter_from (S k) rest
  end.

(** An invocation whose first task has entered. *)
Definition entered {W} (jb : Batch.job W) : Batch.slot :=
  Batch.Running (Base.concur_trades (Strategy.self (Batch.job_client jb)) - 1)
    (<[0 := Strategy.InFlight]>
       (map (fun _ => Strategy.Pending)
            (Strategy.values (Base.accounts (Strategy.self (Batch.job_client jb)))))).

(** ** Vocabulary for the operator's answers and the Fennel client *)

(** A string that does not begin with whitespace. *)
Definition trimmed_left (s : string) : Prop :=
  match s with
  | EmptyString => True
  | String c _ => is_space c = false
  end.

(** [",".join(words)] *)
Fixpoint join_comma (words : list string) : string :=
  match words with
  | [] => EmptyString
  | [word] => word
  | word :: rest => String.append word (String comma (join_comma rest))
  end.

(** The next [n] answers of the operator to a prompt asked again and again
    from state [s]. *)
Fixpoint replies {W} (input : string -> W -> string * W) (prompt : string) (n : nat)
    (s : state W) : list string :=
  match n with
  | 0 => []
  | S n' =>
      let (answer, w') := input prompt (world s) in
      answer :: replies input prompt n' (mkState w' (trace s))
  end.

Definition is_action (answer : string) : bool :=
  String.eqb answer "buy" || String.eqb answer "sell".

Definition is_verdict (answer : string) : bool :=
  String.eqb answer "yes" || String.eqb answer "no".

(** A venue whose raw placement primitives are those of the Fennel client. *)
Definition with_fennel_orders {W} (v : Base.Venue W) (fennel : Fennel.SDK W) : Base.Venue W :=
  Base.mkVenue W (Base.is_market_open v) (Base.is_tradable v) (Base.get_account_balance v)
    (Base.get_stock_holdings v)
    (Fennel._place_buy_orders fennel) (Fennel._place_sell_orders fennel).

(** The Fennel client as the orchestrator holds it. *)
Definition fennel_client {W} (v : Base.Venue W) (fennel : Fennel.SDK W) (self : Base.BaseClient)
  : Strategy.Client W :=
  Strategy.mkC self (with_fennel_orders v fennel) (Fennel.authenticate fennel).

(** ** Further cases for the doubles *)

Module Cases.
Import Base.

(** A logged-in client of the raising venue. *)
Definition broken : Strategy.Client unit :=
  Strategy.mkC Double.client Double.failing_venue (fun me w => (Ret true, me, w)).

(** A logged-in client whose cap is zero, and one whose cap is negative. *)
Definition stalled : Strategy.Client unit :=
  Strategy.mkC (mkClient "Stalled" 0%float false 0 true [(1%Z, "A1"); (2%Z, "A2")])
    Double.venue (fun me w => (Ret true, me, w)).

Definition negative : Strategy.Client unit :=
  Strategy.mkC (mkClient "Negative" 0%float false (-1) true [(1%Z, "A1")])
    Double.venue (fun me w => (Ret true, me, w)).

(** A client whose balance query raises for account "A2". *)
Definition unreachable : Strategy.Client unit :=
  Strategy.mkC (mkClient "Unreachable" 0%float false 1 true [(1%Z, "A1"); (2%Z, "A2")])
    (with_balance Double.venue
       (fun account_id w =>
          if String.eqb account_id "A2" then (Raise (Exception "connection reset"), w)
          else (Ret (Some 10%float), w)))
    (fun me w => (Ret true, me, w)).

(** A Fennel object whose login works and whose account listing fails, and
    one on which both work and orders are answered with an error. *)
Definition fennel_no_listing : Fennel.SDK unit :=
  Fennel.mkSDK unit (fun w => (Ret tt, w))
    (fun w => (Raise (Exception "listing failed"), w))
    (fun _ _ _ _ w => (Ret ∅, w)).

Definition fennel_rejecting : Fennel.SDK unit :=
  Fennel.mkSDK unit (fun w => (Ret tt, w))
    (fun w => (Ret ["F1"; "F2"], w))
    (fun _ _ _ _ w => (Ret {[ "errors" := "insufficient buying power" ]}, w)).

(** A backend with the name of no other and without accounts. *)
Definition empty_handed : Strategy.Client unit :=
  Strategy.mkC (mkClient "Empty" 0%float false 1 false []) Double.venue
    (fun me w => (Ret false, me, w)).

(** An operator who confirms every ticker, buys, and answers the final
    question with [final]. *)
Definition operator (final : string) : string -> unit -> string * unit :=
  fun prompt w =>
    if String.prefix "Confirm" prompt then ("Yes", w)
    else if String.prefix "Do you want to 'buy'" prompt then ("BUY", w)
    else (final, w).

(** Every client quotes 10.0. *)
Definition quote : Strategy.Client unit -> string -> unit -> outcome (option float) * unit :=
  fun _ _ w => (Ret (Some 10%float), w).

Definition two_decimals : float -> string := fun _ => "10.00".

(** Two invocations of three tasks each, interleaved. *)
Definition interleaved : list (nat * Strategy.choice) :=
  [(0, Strategy.Enter 0); (1, Strategy.Enter 0); (0, Strategy.Leave 0); (1, Strategy.Leave 0);
   (0, Strategy.Enter 1); (0, Strategy.Leave 1); (0, Strategy.Enter 2); (0, Strategy.Leave 2);
   (1, Strategy.Enter 1); (1, Strategy.Leave 1); (1, Strategy.Enter 2); (1, Strategy.Leave 2)].


Definition partial_app : Strategy.TradingApp unit :=
  Strategy.new_app [Double.ready; unreachable].

(** Two backends that both succeed. *)
Definition full_app : Strategy.TradingApp unit :=
  Strategy.new_app [Double.good; Double.good].

End Cases.

(** * Properties of the shared client layer *)

Module BaseSpec.
Import Base.

(** Unfolds the monad of the shared layer and the evaluator's helpers. *)
Ltac unfold_monad := unfold bind, call, ret, emit, try_.
Ltac unfold_check :=
  unfold check_preconditions, has_position, funds_check; unfold_monad.

(** ** Binary64 comparison *)

Lemma SFcompare_swap (x y : spec_float) :
  SFcompare y x = option_map CompOpp (SFcompare x y).
Proof.
  destruct x as [sx|sx| |sx mx ex], y as [sy|sy| |sy my ey]; simpl;
    try reflexivity; try (destruct sx; reflexivity); try (destruct sy; reflexivity).
  - destruct sx, sy; reflexivity.
  - destruct sx, sy; simpl; try reflexivity;
      rewrite (Z.compare_antisym ey ex); destruct (ey ?= ex)%Z; simpl; try reflexivity;
      rewrite (Pos.compare_cont_antisym mx my Eq); reflexivity.
Qed.

Lemma Prim2SF_not_nan (x : float) :
  PrimFloat.is_nan x = false -> Prim2SF x <> S754_nan.
Proof.
  intros H. unfold Prim2SF. rewrite H.
  destruct (PrimFloat.is_zero x); [discriminate|].
  destruct (PrimFloat.is_infinity x); [discriminate|].
  destruct (Z.frexp x) as [r e].
  destruct (shr_fexp _ _ _ _ _) as [shr e'].
  destruct (shr_m shr); discriminate.
Qed.

Lemma SFcompare_defined (x y : spec_float) :
  x <> S754_nan -> y <> S754_nan -> exists c, SFcompare x y = Some c.
Proof.
  intros Hx Hy. destruct x, y; simpl; try congruence; eauto.
Qed.

(** On numbers, "not strictly below" is "at least". *)
Lemma not_ltb_is_leb (b t : float) :
  PrimFloat.is_nan b = false -> PrimFloat.is_nan t = false ->
  negb (PrimFloat.ltb b t) = PrimFloat.leb t b.
Proof.
  intros Hb Ht. rewrite FloatAxioms.ltb_spec, FloatAxioms.leb_spec.
  unfold SFltb, SFleb. rewrite (SFcompare_swap (Prim2SF b) (Prim2SF t)).
  destruct (SFcompare_defined _ _ (Prim2SF_not_nan _ Hb) (Prim2SF_not_nan _ Ht)) as [c ->].
  destruct c; reflexivity.
Qed.

(** ** The precondition evaluator after its first three gates *)

Section Gates.
Context {W : Type}.
Variables (self : BaseClient) (venue : Venue W).
Variables (account_id ticker : string) (price : float).

Lemma check_after_gates (side : string) (s : state W) (w2 w3 : W)
    (holdings : option (gmap string float)) :
  gates_pass self venue ticker s w2 ->
  get_stock_holdings venue account_id w2 = (Ret holdings, w3) ->
  check_preconditions self venue account_id ticker price side s =
    if String.eqb side "buy" && holds holdings ticker then
      (Ret false,
       mkState w3 (trace s ++ [Warning (AlreadyHasShare (brokerage_name self)
                                          (account_number self account_id) ticker)]))
    else if String.eqb side "sell" && negb (holds holdings ticker) then
      (Ret false,
       mkState w3 (trace s ++ [Warning (DoesNotHaveShare (brokerage_name self)
                                          (account_number self account_id) ticker)]))
    else funds_check self venue account_id ticker price side (mkState w3 (trace s)).
Proof.
  intros (Hauth & w1 & Ht & Hm) Hh.
  unfold check_preconditions, has_position, bind, call, ret, emit.
  rewrite Hauth; simpl. rewrite Ht; simpl. rewrite Hm; simpl. rewrite Hh; simpl.
  destruct (String.eqb side "buy" && holds holdings ticker); [reflexivity|].
  destruct (String.eqb side "sell" && negb (holds holdings ticker)); reflexivity.
Qed.

Lemma holds_Some (h : gmap string float) (t : string) :
  holds (Some h) t = contains h t.
Proof.
  unfold holds, truthy, contains.
  destruct (h !! t) as [q|] eqn:E.
  - assert (size h <> 0) as Hne.
    { apply map_size_non_empty_iff. intros ->. rewrite lookup_empty in E. discriminate. }
    destruct (size h); [congruence | reflexivity].
  - destruct (negb (Nat.eqb (size h) 0)); reflexivity.
Qed.

Lemma holds_position (holdings : option (gmap string float)) (t : string) :
  holds holdings t = match position_state holdings t with Held => true | _ => false end.
Proof.
  destruct holdings as [h|]; [|reflexivity].
  rewrite holds_Some. simpl. destruct (contains h t); reflexivity.
Qed.

(** C2: with the first three checks passed, the position rule is tri-state.
    A held ticker makes the buy precondition false; a ticker absent from
    fetched holdings makes the sell precondition false; when the holdings
    could not be fetched, the position rule does not block a buy (the
    evaluator's answer is that of the funds check alone) and the sell
    precondition is false. *)
Theorem position_rule_tri_state (s : state W) (w2 w3 : W)
    (holdings : option (gmap string float)) :
  gates_pass self venue ticker s w2 ->
  get_stock_holdings venue account_id w2 = (Ret holdings, w3) ->
  (position_state holdings ticker = Held ->
     fst (check_preconditions self venue account_id ticker price "buy" s) = Ret false) /\
  (position_state holdings ticker = NotHeld ->
     fst (check_preconditions self venue account_id ticker price "sell" s) = Ret false) /\
  (position_state holdings ticker = Unknown ->
     check_preconditions self venue account_id ticker price "buy" s
       = funds_check self venue account_id ticker price "buy" (mkState w3 (trace s)) /\
     fst (check_preconditions self venue account_id ticker price "sell" s) = Ret false).
Proof.
  intros Hg Hh.
  pose proof (check_after_gates "buy" s w2 w3 holdings Hg Hh) as Hbuy.
  pose proof (check_after_gates "sell" s w2 w3 holdings Hg Hh) as Hsell.
  rewrite holds_position in Hbuy, Hsell. simpl in Hbuy, Hsell.
  split; [|split].
  - intros Hp. rewrite Hp in Hbuy. rewrite Hbuy. reflexivity.
  - intros Hp. rewrite Hp in Hsell. rewrite Hsell. reflexivity.
  - intros Hp. rewrite Hp in Hbuy, Hsell. split.
    + exact Hbuy.
    + rewrite Hsell. reflexivity.
Qed.

(** C3: for a buy that the earlier checks and the position rule let through,
    a retrievable balance passes exactly when it is at least
    [price + transaction_fee + 0.2] (for balances and thresholds that are
    numbers), every balance strictly below the threshold fails, and an
    unretrievable balance fails. *)
Theorem buy_funds_rule (s : state W) (w2 w3 w4 : W)
    (holdings : option (gmap string float)) (balance : option float) :
  gates_pass self venue ticker s w2 ->
  get_stock_holdings venue account_id w2 = (Ret holdings, w3) ->
  position_state holdings ticker <> Held ->
  get_account_balance venue account_id w3 = (Ret balance, w4) ->
  let threshold := (price + transaction_fee self + buffer)%float in
  let verdict := fst (check_preconditions self venue account_id ticker price "buy" s) in
  (forall b, balance = Some b ->
     PrimFloat.is_nan b = false -> PrimFloat.is_nan threshold = false ->
     verdict = Ret (PrimFloat.leb threshold b)) /\
  (forall b, balance = Some b -> PrimFloat.ltb b threshold = true -> verdict = Ret false) /\
  (forall b, balance = Some b -> PrimFloat.ltb b threshold = false -> verdict = Ret true) /\
  (balance = None -> verdict = Ret false).
Proof.
  intros Hg Hh Hp Hb threshold verdict.
  assert (verdict = Ret (match balance with
                         | None => false
                         | Some b => negb (PrimFloat.ltb b threshold)
                         end)) as Hv.
  { unfold verdict. rewrite (check_after_gates "buy" s w2 w3 holdings Hg Hh).
    rewrite holds_position. simpl.
    destruct (position_state holdings ticker); [congruence | |];
      unfold_check; simpl; rewrite Hb; simpl;
      (destruct balance as [b|]; simpl; [|reflexivity]);
      fold threshold; destruct (PrimFloat.ltb b threshold); reflexivity. }
  repeat split.
  - intros b -> Hnb Hnt. rewrite Hv. f_equal. apply not_ltb_is_leb; assumption.
  - intros b -> Hlt. rewrite Hv, Hlt. reflexivity.
  - intros b -> Hlt. rewrite Hv, Hlt. reflexivity.
  - intros ->. exact Hv.
Qed.

End Gates.

(** C2 on the double: "A2" holds the ticker, "A3" has holdings without it,
    and the holdings of "A1" cannot be fetched. *)
Lemma position_rule_tri_state_witness :
  fst (check_preconditions Double.client Double.venue "A2" "XYZ" 10%float "buy" Double.s0)
    = Ret false /\
  fst (check_preconditions Double.client Double.venue "A3" "XYZ" 10%float "sell" Double.s0)
    = Ret false /\
  fst (check_preconditions Double.client Double.venue "A1" "XYZ" 10%float "sell" Double.s0)
    = Ret false /\
  check_preconditions Double.client Double.venue "A1" "XYZ" 10%float "buy" Double.s0
    = funds_check Double.client Double.venue "A1" "XYZ" 10%float "buy" Double.s0.
Proof.
  assert (gates_pass Double.client Double.venue "XYZ" Double.s0 tt) as Hg.
  { split; [reflexivity|]. exists tt. split; reflexivity. }
  pose proof (position_rule_tri_state Double.client Double.venue "A2" "XYZ" 10%float
                Double.s0 tt tt (Double.holdings_of "A2") Hg eq_refl) as (H2 & _ & _).
  pose proof (position_rule_tri_state Double.client Double.venue "A3" "XYZ" 10%float
                Double.s0 tt tt (Double.holdings_of "A3") Hg eq_refl) as (_ & H3 & _).
  pose proof (position_rule_tri_state Double.client Double.venue "A1" "XYZ" 10%float
                Double.s0 tt tt (Double.holdings_of "A1") Hg eq_refl) as (_ & _ & H1).
  split; [apply H2; vm_compute; reflexivity|].
  split; [apply H3; vm_compute; reflexivity|].
  destruct H1 as [H1b H1s]; [vm_compute; reflexivity|].
  split; [exact H1s | exact H1b].
Defined.

(** C3 on the double, at a price of 10.0 with no fee: a balance of
    10.0 + 0 + 0.2 passes, one of 10.0 + 0 + 0.1999 fails, and so does an
    unretrievable one. *)
Lemma buy_funds_rule_witness :
  fst (check_preconditions Double.client (Double.venue_with (Some Double.boundary_balance))
         "A1" "XYZ" 10%float "buy" Double.s0) = Ret true /\
  fst (check_preconditions Double.client (Double.venue_with (Some Double.short_balance))
         "A1" "XYZ" 10%float "buy" Double.s0) = Ret false /\
  fst (check_preconditions Double.client (Double.venue_with None)
         "A1" "XYZ" 10%float "buy" Double.s0) = Ret false.
Proof.
  assert (forall balance,
            gates_pass Double.client (Double.venue_with balance) "XYZ" Double.s0 tt) as Hg.
  { intros balance. split; [reflexivity|]. exists tt. split; reflexivity. }
  assert (position_state (Double.holdings_of "A1") "XYZ" <> Held) as Hp
    by (vm_compute; discriminate).
  split; [|split].
  - destruct (buy_funds_rule Double.client (Double.venue_with (Some Double.boundary_balance))
                "A1" "XYZ" 10%float Double.s0 tt tt tt (Double.holdings_of "A1")
                (Some Double.boundary_balance) (Hg _) eq_refl Hp eq_refl) as (H & _).
    rewrite (H Double.boundary_balance eq_refl); [reflexivity | reflexivity | reflexivity].
  - destruct (buy_funds_rule Double.client (Double.venue_with (Some Double.short_balance))
                "A1" "XYZ" 10%float Double.s0 tt tt tt (Double.holdings_of "A1")
                (Some Double.short_balance) (Hg _) eq_refl Hp eq_refl) as (_ & H & _).
    apply (H Double.short_balance eq_refl). reflexivity.
  - destruct (buy_funds_rule Double.client (Double.venue_with None)
                "A1" "XYZ" 10%float Double.s0 tt tt tt (Double.holdings_of "A1")
                None (Hg _) eq_refl Hp eq_refl) as (_ & _ & _ & H).
    apply H. reflexivity.
Defined.

Section Sell.
Context {W : Type}.
Variables (self : BaseClient) (venue : Venue W).
Variables (account_id ticker : string) (price : float).

Lemma check_sell_unfold (s : state W) :
  check_preconditions self venue account_id ticker price "sell" s =
    if negb (authenticated self) then
      (Ret false, mkState (world s) (trace s ++ [Warning NotAuthenticated]))
    else
      match is_tradable venue ticker (world s) with
      | (Raise e, w1) => (Raise e, mkState w1 (trace s))
      | (Ret false, w1) =>
          (Ret false, mkState w1 (trace s ++ [Warning (NotTradable ticker (brokerage_name self))]))
      | (Ret true, w1) =>
          match is_market_open venue w1 with
          | (Raise e, w2) => (Raise e, mkState w2 (trace s))
          | (Ret false, w2) => (Ret false, mkState w2 (trace s ++ [Warning MarketClosed]))
          | (Ret true, w2) =>
              match get_stock_holdings venue account_id w2 with
              | (Raise e, w3) => (Raise e, mkState w3 (trace s))
              | (Ret holdings, w3) =>
                  if holds holdings ticker then (Ret true, mkState w3 (trace s))
                  else (Ret false,
                        mkState w3 (trace s ++ [Warning (DoesNotHaveShare (brokerage_name self)
                                                  (account_number self account_id) ticker)]))
              end
          end
      end.
Proof.
  unfold_check.
  destruct (authenticated self); simpl; [|reflexivity].
  destruct (is_tradable venue ticker (world s)) as [[[|]|e] w1]; simpl; try reflexivity.
  destruct (is_market_open venue w1) as [[[|]|e] w2]; simpl; try reflexivity.
  destruct (get_stock_holdings venue account_id w2) as [[holdings|e] w3]; simpl; try reflexivity.
  destruct (holds holdings ticker); reflexivity.
Qed.

End Sell.

Section SellRule.
Context {W : Type}.
Variables (self : BaseClient) (venue : Venue W).
Variables (account_id ticker : string) (price : float).

(** C10: the sell precondition never consults the balance.  Replacing the
    balance query of the venue by any other one (returning zero, nothing, or
    raising) leaves the evaluation of a sell unchanged, and a sell passes
    exactly when the backend is authenticated, the ticker is tradable, the
    market is open and the fetched holdings contain the ticker. *)
Theorem sell_ignores_balance (s : state W) :
  (forall gb : string -> W -> outcome (option float) * W,
     check_preconditions self (with_balance venue gb) account_id ticker price "sell" s
       = check_preconditions self venue account_id ticker price "sell" s) /\
  (fst (check_preconditions self venue account_id ticker price "sell" s) = Ret true <->
     authenticated self = true /\
     exists w1 w2 w3 h,
       is_tradable venue ticker (world s) = (Ret true, w1) /\
       is_market_open venue w1 = (Ret true, w2) /\
       get_stock_holdings venue account_id w2 = (Ret (Some h), w3) /\
       position_state (Some h) ticker = Held).
Proof.
  split.
  - intros gb. rewrite (check_sell_unfold self venue), (check_sell_unfold self (with_balance venue gb)).
    reflexivity.
  - rewrite check_sell_unfold. split.
    + destruct (authenticated self); simpl; [|discriminate].
      destruct (is_tradable venue ticker (world s)) as [[[|]|e] w1] eqn:Ht;
        simpl; try discriminate.
      destruct (is_market_open venue w1) as [[[|]|e] w2] eqn:Hm; simpl; try discriminate.
      destruct (get_stock_holdings venue account_id w2) as [[holdings|e] w3] eqn:Hh;
        simpl; try discriminate.
      destruct (holds holdings ticker) eqn:Hheld; simpl; try discriminate.
      intros _. split; [reflexivity|].
      rewrite holds_position in Hheld.
      destruct holdings as [h|]; [|discriminate].
      exists w1, w2, w3, h. split; [reflexivity|]. split; [exact Hm|]. split; [exact Hh|].
      simpl in Hheld |- *. destruct (contains h ticker); congruence.
    + intros (-> & w1 & w2 & w3 & h & -> & -> & -> & Hp). simpl.
      rewrite holds_position, Hp. reflexivity.
Qed.

End SellRule.

(** C10 on the double: account "A2" owns the ticker, and its sell passes
    whether the venue reports a balance of zero or none at all. *)
Lemma sell_ignores_balance_witness :
  fst (check_preconditions Double.client (Double.venue_with (Some 0%float))
         "A2" "XYZ" 10%float "sell" Double.s0) = Ret true /\
  fst (check_preconditions Double.client (Double.venue_with None)
         "A2" "XYZ" 10%float "sell" Double.s0) = Ret true.
Proof.
  destruct (sell_ignores_balance Double.client Double.venue "A2" "XYZ" 10%float Double.s0)
    as (Hind & Hpass).
  assert (fst (check_preconditions Double.client Double.venue "A2" "XYZ" 10%float "sell"
                 Double.s0) = Ret true) as H.
  { apply Hpass. split; [reflexivity|].
    exists tt, tt, tt, {[ "XYZ" := 1%float ]}.
    repeat split; vm_compute; reflexivity. }
  unfold Double.venue_with. rewrite !Hind. split; exact H.
Defined.

(** ** The placement wrappers *)

Lemma sleeps_snoc_warning (t : list event) (l : log_line) :
  sleeps (t ++ [Warning l]) = sleeps t.
Proof.
  unfold sleeps. rewrite filter_app, length_app.
  rewrite filter_cons, filter_nil. simpl.
  destruct (decide (false = true)) as [E|_]; [discriminate E | simpl; lia].
Qed.

Section Wrappers.
Context {W : Type}.
Variables (self : BaseClient) (venue : Venue W).
Variables (account_id ticker : string) (price : float).

(** The precondition evaluator logs, and never sleeps. *)
Lemma check_preconditions_no_sleep (side : string) (s : state W) :
  sleeps (trace (snd (check_preconditions self venue account_id ticker price side s)))
    = sleeps (trace s).
Proof.
  unfold_check.
  destruct (authenticated self); simpl; [|apply sleeps_snoc_warning].
  destruct (is_tradable venue ticker (world s)) as [[[|]|e] w1]; simpl;
    try reflexivity; try apply sleeps_snoc_warning.
  destruct (is_market_open venue w1) as [[[|]|e] w2]; simpl;
    try reflexivity; try apply sleeps_snoc_warning.
  destruct (get_stock_holdings venue account_id w2) as [[holdings|e] w3]; simpl;
    try reflexivity.
  destruct (String.eqb side "buy") eqn:Hside; simpl.
  - destruct (holds holdings ticker); simpl; [apply sleeps_snoc_warning|].
    destruct (String.eqb side "sell" && true); simpl; [apply sleeps_snoc_warning|].
    destruct (get_account_balance venue account_id w3) as [[[b|]|e] w4]; simpl;
      try reflexivity; try apply sleeps_snoc_warning.
    destruct (PrimFloat.ltb b _); simpl; try reflexivity; apply sleeps_snoc_warning.
  - destruct (String.eqb side "sell" && negb (holds holdings ticker)); simpl;
      [apply sleeps_snoc_warning | reflexivity].
Qed.

Lemma place_buy_orders_unfold (order_type : string) (s : state W) :
  place_buy_orders self venue account_id ticker price order_type s =
    match check_preconditions self venue account_id ticker price "buy" s with
    | (Raise e, s1) => (Raise e, s1)
    | (Ret false, s1) => (Ret false, s1)
    | (Ret true, s1) =>
        match _place_buy_orders venue account_id ticker price order_type (world s1) with
        | (Raise e, w2) => (Raise e, mkState w2 (trace s1))
        | (Ret true, w2) =>
            (Ret true,
             mkState w2 (trace s1 ++ [Info (BuyOrderPlaced (brokerage_name self)
                                              (account_number self account_id) ticker price);
                                      trade_delay self]))
        | (Ret false, w2) => (Ret false, mkState w2 (trace s1 ++ [trade_delay self]))
        end
    end.
Proof.
  unfold place_buy_orders, get_trade_delay, trade_delay, bind, call, ret, emit.
  destruct (check_preconditions self venue account_id ticker price "buy" s) as [[[|]|e] s1];
    simpl; try reflexivity.
  destruct (_place_buy_orders venue account_id ticker price order_type (world s1))
    as [[[|]|e] w2]; simpl; try reflexivity.
  rewrite <- app_assoc. reflexivity.
Qed.

Lemma place_sell_orders_unfold (order_type : string) (s : state W) :
  place_sell_orders self venue account_id ticker price order_type s =
    match check_preconditions self venue account_id ticker price "sell" s with
    | (Raise e, s1) => (Raise e, s1)
    | (Ret false, s1) => (Ret false, s1)
    | (Ret true, s1) =>
        match _place_sell_orders venue account_id ticker price order_type (world s1) with
        | (Raise e, w2) => (Raise e, mkState w2 (trace s1))
        | (Ret true, w2) =>
            (Ret true,
             mkState w2 (trace s1 ++ [Info (SellOrderPlaced (brokerage_name self)
                                              (account_number self account_id) ticker price);
                                      trade_delay self]))
        | (Ret false, w2) => (Ret false, mkState w2 (trace s1 ++ [trade_delay self]))
        end
    end.
Proof.
  unfold place_sell_orders, get_trade_delay, trade_delay, bind, call, ret, emit.
  destruct (check_preconditions self venue account_id ticker price "sell" s) as [[[|]|e] s1];
    simpl; try reflexivity.
  destruct (_place_sell_orders venue account_id ticker price order_type (world s1))
    as [[[|]|e] w2]; simpl; try reflexivity.
  rewrite <- app_assoc. reflexivity.
Qed.

(** C9: in both wrappers the trade delay is the last effect after the raw
    placement call, whether that call returned true (the delay follows the
    log line of the placed order) or false; when the precondition check
    fails the wrapper returns false in the state the check left, in which no
    sleep has been added. *)
Theorem trade_delay_policy (order_type : string) (s : state W) :
  (forall s1,
     check_preconditions self venue account_id ticker price "buy" s = (Ret false, s1) ->
     place_buy_orders self venue account_id ticker price order_type s = (Ret false, s1) /\
     sleeps (trace s1) = sleeps (trace s)) /\
  (forall s1 w2,
     check_preconditions self venue account_id ticker price "buy" s = (Ret true, s1) ->
     _place_buy_orders venue account_id ticker price order_type (world s1) = (Ret true, w2) ->
     place_buy_orders self venue account_id ticker price order_type s =
       (Ret true,
        mkState w2 (trace s1 ++ [Info (BuyOrderPlaced (brokerage_name self)
                                         (account_number self account_id) ticker price);
                                 trade_delay self]))) /\
  (forall s1 w2,
     check_preconditions self venue account_id ticker price "buy" s = (Ret true, s1) ->
     _place_buy_orders venue account_id ticker price order_type (world s1) = (Ret false, w2) ->
     place_buy_orders self venue account_id ticker price order_type s =
       (Ret false, mkState w2 (trace s1 ++ [trade_delay self]))) /\
  (forall s1,
     check_preconditions self venue account_id ticker price "sell" s = (Ret false, s1) ->
     place_sell_orders self venue account_id ticker price order_type s = (Ret false, s1) /\
     sleeps (trace s1) = sleeps (trace s)) /\
  (forall s1 w2,
     check_preconditions self venue account_id ticker price "sell" s = (Ret true, s1) ->
     _place_sell_orders venue account_id ticker price order_type (world s1) = (Ret true, w2) ->
     place_sell_orders self venue account_id ticker price order_type s =
       (Ret true,
        mkState w2 (trace s1 ++ [Info (SellOrderPlaced (brokerage_name self)
                                         (account_number self account_id) ticker price);
                                 trade_delay self]))) /\
  (forall s1 w2,
     check_preconditions self venue account_id ticker price "sell" s = (Ret true, s1) ->
     _place_sell_orders venue account_id ticker price order_type (world s1) = (Ret false, w2) ->
     place_sell_orders self venue account_id ticker price order_type s =
       (Ret false, mkState w2 (trace s1 ++ [trade_delay self]))).
Proof.
  pose proof (check_preconditions_no_sleep "buy" s) as Hb.
  pose proof (check_preconditions_no_sleep "sell" s) as Hs.
  rewrite place_buy_orders_unfold, place_sell_orders_unfold.
  repeat apply conj.
  - intros s1 Hc. rewrite Hc in *. split; [reflexivity | exact Hb].
  - intros s1 w2 Hc Hr. rewrite Hc, Hr. reflexivity.
  - intros s1 w2 Hc Hr. rewrite Hc, Hr. reflexivity.
  - intros s1 Hc. rewrite Hc in *. split; [reflexivity | exact Hs].
  - intros s1 w2 Hc Hr. rewrite Hc, Hr. reflexivity.
  - intros s1 w2 Hc Hr. rewrite Hc, Hr. reflexivity.
Qed.

(** C1, as the code has it: the wrappers contain no exception handler.
    They return false when the precondition check returns false, and the
    boolean of the raw placement primitive when the check passes and the
    primitive returns; an exception raised by the raw primitive, or during
    the precondition check, reaches the caller unchanged (and no trade delay
    is applied). *)
Theorem place_orders_propagate (order_type : string) (s : state W) :
  (forall s1,
     check_preconditions self venue account_id ticker price "buy" s = (Ret false, s1) ->
     fst (place_buy_orders self venue account_id ticker price order_type s) = Ret false) /\
  (forall s1 b w2,
     check_preconditions self venue account_id ticker price "buy" s = (Ret true, s1) ->
     _place_buy_orders venue account_id ticker price order_type (world s1) = (Ret b, w2) ->
     fst (place_buy_orders self venue account_id ticker price order_type s) = Ret b) /\
  (forall s1 e w2,
     check_preconditions self venue account_id ticker price "buy" s = (Ret true, s1) ->
     _place_buy_orders venue account_id ticker price order_type (world s1) = (Raise e, w2) ->
     place_buy_orders self venue account_id ticker price order_type s
       = (Raise e, mkState w2 (trace s1))) /\
  (forall s1 e,
     check_preconditions self venue account_id ticker price "buy" s = (Raise e, s1) ->
     place_buy_orders self venue account_id ticker price order_type s = (Raise e, s1)) /\
  (forall s1,
     check_preconditions self venue account_id ticker price "sell" s = (Ret false, s1) ->
     fst (place_sell_orders self venue account_id ticker price order_type s) = Ret false) /\
  (forall s1 b w2,
     check_preconditions self venue account_id ticker price "sell" s = (Ret true, s1) ->
     _place_sell_orders venue account_id ticker price order_type (world s1) = (Ret b, w2) ->
     fst (place_sell_orders self venue account_id ticker price order_type s) = Ret b) /\
  (forall s1 e w2,
     check_preconditions self venue account_id ticker price "sell" s = (Ret true, s1) ->
     _place_sell_orders venue account_id ticker price order_type (world s1) = (Raise e, w2) ->
     place_sell_orders self venue account_id ticker price order_type s
       = (Raise e, mkState w2 (trace s1))) /\
  (forall s1 e,
     check_preconditions self venue account_id ticker price "sell" s = (Raise e, s1) ->
     place_sell_orders self venue account_id ticker price order_type s = (Raise e, s1)).
Proof.
  rewrite place_buy_orders_unfold, place_sell_orders_unfold.
  repeat apply conj.
  - intros s1 Hc. rewrite Hc. reflexivity.
  - intros s1 b w2 Hc Hr. rewrite Hc, Hr. destruct b; reflexivity.
  - intros s1 e w2 Hc Hr. rewrite Hc, Hr. reflexivity.
  - intros s1 e Hc. rewrite Hc. reflexivity.
  - intros s1 Hc. rewrite Hc. reflexivity.
  - intros s1 b w2 Hc Hr. rewrite Hc, Hr. destruct b; reflexivity.
  - intros s1 e w2 Hc Hr. rewrite Hc, Hr. reflexivity.
  - intros s1 e Hc. rewrite Hc. reflexivity.
Qed.

End Wrappers.

(** The three paths of C9 on the double: an accepted buy ends with the log
    line and the delay, a refused buy with the delay alone, and a buy blocked
    by the position rule with no sleep at all. *)
Lemma trade_delay_policy_witness :
  place_buy_orders Double.client Double.venue "A1" "XYZ" 10%float "market" Double.s0
    = (Ret true,
       mkState tt [Info (BuyOrderPlaced "Double" (Some 1%Z) "XYZ" 10%float);
                   Sleep (Seconds 1)]) /\
  place_buy_orders Double.client Double.refusing_venue "A1" "XYZ" 10%float "market" Double.s0
    = (Ret false, mkState tt [Sleep (Seconds 1)]) /\
  place_buy_orders Double.client Double.venue "A2" "XYZ" 10%float "market" Double.s0
    = (Ret false, mkState tt [Warning (AlreadyHasShare "Double" (Some 2%Z) "XYZ")]) /\
  sleeps [Warning (AlreadyHasShare "Double" (Some 2%Z) "XYZ")] = 0.
Proof.
  destruct (trade_delay_policy Double.client Double.venue "A1" "XYZ" 10%float "market"
              Double.s0) as (_ & Hplaced & _).
  destruct (trade_delay_policy Double.client Double.refusing_venue "A1" "XYZ" 10%float
              "market" Double.s0) as (_ & _ & Hrefused & _).
  destruct (trade_delay_policy Double.client Double.venue "A2" "XYZ" 10%float "market"
              Double.s0) as (Hblocked & _).
  split; [|split].
  - apply (Hplaced Double.s0 tt); reflexivity.
  - apply (Hrefused Double.s0 tt); reflexivity.
  - apply (Hblocked (mkState tt [Warning (AlreadyHasShare "Double" (Some 2%Z) "XYZ")])).
    vm_compute. reflexivity.
Defined.

(** The amended C1 on the double: a raw primitive that returns gives the
    wrapper its boolean, one that raises gives it its exception. *)
Lemma place_orders_propagate_witness :
  fst (place_sell_orders Double.client Double.venue "A2" "XYZ" 10%float "market" Double.s0)
    = Ret true /\
  place_sell_orders Double.client Double.failing_venue "A2" "XYZ" 10%float "market" Double.s0
    = (Raise (Exception "order rejected"), Double.s0).
Proof.
  destruct (place_orders_propagate Double.client Double.venue "A2" "XYZ" 10%float "market"
              Double.s0) as (_ & _ & _ & _ & _ & Hret & _).
  destruct (place_orders_propagate Double.client Double.failing_venue "A2" "XYZ" 10%float
              "market" Double.s0) as (_ & _ & _ & _ & _ & _ & Hraise & _).
  split.
  - apply (Hret Double.s0 true tt); vm_compute; reflexivity.
  - apply (Hraise Double.s0 (Exception "order rejected") tt); vm_compute; reflexivity.
Defined.

(** C1, as stated, fails: on the double whose order submission raises, the
    buy and the sell wrapper do not return a boolean; the exception of the
    raw primitive comes out of them. *)
Lemma place_orders_raise :
  fst (place_buy_orders Double.client Double.failing_venue "A1" "XYZ" 10%float "market" Double.s0)
    = Raise (Exception "order rejected") /\
  fst (place_sell_orders Double.client Double.failing_venue "A2" "XYZ" 10%float "market" Double.s0)
    = Raise (Exception "order rejected") /\
  ~ (exists b : bool,
       fst (place_buy_orders Double.client Double.failing_venue "A1" "XYZ" 10%float "market"
              Double.s0) = Ret b).
Proof.
  assert (fst (place_buy_orders Double.client Double.failing_venue "A1" "XYZ" 10%float "market"
                 Double.s0) = Raise (Exception "order rejected")) as Hbuy
    by (vm_compute; reflexivity).
  split; [exact Hbuy|]. split; [vm_compute; reflexivity|].
  intros [b Hb]. rewrite Hbuy in Hb. discriminate Hb.
Qed.

End BaseSpec.

(** * Properties of the orchestrator *)

Module StrategySpec.
Import Base Strategy.

(** ** Authentication lifecycle *)

Lemma remove_first_snoc (i : nat) (auth : list nat) :
  i ∉ auth -> remove_first i (auth ++ [i]) = auth.
Proof.
  induction auth as [|j auth IH]; intros Hi; simpl.
  - rewrite Nat.eqb_refl. reflexivity.
  - apply not_elem_of_cons in Hi as [Hne Hi].
    destruct (Nat.eqb i j) eqn:E.
    + apply Nat.eqb_eq in E. contradiction.
    + rewrite IH by assumption. reflexivity.
Qed.

Section Lifecycle.
Context {W : Type}.

Lemma verify_returns (c : Client W) (s : state W) :
  exists b s', _verify_account_access c s = (Ret b, s').
Proof.
  unfold _verify_account_access, try_, bind, call, ret.
  destruct (accounts (self c)) as [|[n first_account] rest]; simpl; eauto.
  destruct (get_account_balance (venue c) first_account (world s)) as [[[b|]|e] w'];
    simpl; eauto.
Qed.

Lemma authenticate_client_spec (i : nat) (c : Client W) (auth : list nat) (s : state W) :
  i ∉ auth ->
  exists c',
    authenticate_client i c auth s
      = (Ret (c', auth ++ (if succeeds c s then [i] else [])), after_attempt c s).
Proof.
  intros Hi. unfold after_attempt, succeeds, authenticate_client, bind, run_authenticate.
  destruct (authenticate c (self c) (world s)) as [[r self'] w'].
  destruct r as [[|]|e]; simpl; unfold ret; simpl;
    try (rewrite app_nil_r; eauto).
  set (c' := mkC self' (venue c) (authenticate c)).
  set (s1 := mkState w' (trace s)).
  destruct (verify_returns c' s1) as (b & s2 & ->). simpl.
  destruct b; simpl.
  - eauto.
  - rewrite remove_first_snoc by assumption. rewrite app_nil_r. eauto.
Qed.

Lemma authenticate_clients_spec (cs : list (Client W)) :
  forall (i : nat) (auth : list nat) (s : state W),
    Forall (fun j => j < i) auth ->
    exists cs',
      authenticate_clients i cs auth s
        = (Ret (cs', auth ++ succeeded i cs s), after_attempts cs s) /\
      length cs' = length cs.
Proof.
  induction cs as [|c rest IH]; intros i auth s Hlt; simpl.
  - exists []. rewrite app_nil_r. split; reflexivity.
  - assert (i ∉ auth) as Hi.
    { intros Hin. rewrite Forall_forall in Hlt. apply Hlt in Hin. lia. }
    destruct (authenticate_client_spec i c auth s Hi) as (c' & Hc).
    unfold bind at 1. rewrite Hc.
    set (auth' := auth ++ (if succeeds c s then [i] else [])).
    assert (Forall (fun j => j < S i) auth') as Hlt'.
    { unfold auth'. apply Forall_app. split.
      - eapply Forall_impl; [exact Hlt|]. simpl. intros; lia.
      - destruct (succeeds c s); repeat constructor. }
    destruct (IH (S i) auth' (after_attempt c s) Hlt') as (rest' & Hr & Hlen).
    unfold bind. rewrite Hr. unfold ret.
    exists (c' :: rest'). split.
    + unfold auth'. rewrite <- app_assoc. reflexivity.
    + simpl. rewrite Hlen. reflexivity.
Qed.

Variable input : string -> W -> string * W.

Lemma initialize_unfold (app : TradingApp W) (s : state W) :
  initialized app = false ->
  exists cs s1,
    length cs = length (clients app) /\
    s1 = after_attempts (clients app) s /\
    let auth := succeeded 0 (clients app) s in
    initialize input app s =
      match auth with
      | [] => (Ret (false, mkApp cs false auth), s1)
      | _ :: _ =>
          if Nat.ltb (length auth) (length (clients app)) then
            let (response, w2) := input degraded_prompt (world s1) in
            if negb (String.eqb (lower response) "yes")
            then (Ret (false, mkApp cs false auth), mkState w2 (trace s1))
            else (Ret (true, mkApp cs true auth), mkState w2 (trace s1))
          else (Ret (true, mkApp cs true auth), s1)
      end.
Proof.
  intros Hinit.
  destruct (authenticate_clients_spec (clients app) 0 [] s ltac:(constructor)) as (cs & Hcs & Hlen).
  simpl in Hcs.
  exists cs, (after_attempts (clients app) s). split; [exact Hlen|]. split; [reflexivity|].
  unfold initialize. rewrite Hinit. unfold bind at 1. rewrite Hcs. rewrite Hlen.
  destruct (succeeded 0 (clients app) s) as [|j auth]; [reflexivity|].
  cbv zeta.
  destruct (Nat.ltb (length (j :: auth)) (length (clients app))); [|reflexivity].
  unfold bind, ask, ret.
  destruct (input degraded_prompt (world (after_attempts (clients app) s))) as [response w2].
  destruct (negb (String.eqb (lower response) "yes")); reflexivity.
Qed.

(** C4: when some but not all backends succeed, the run hangs on the
    operator's answer to the degraded-mode prompt.  Any answer other than
    "yes" (in any letter case) makes [initialize] return false; "yes" makes
    it return true, with the authenticated list equal to the backends that
    succeeded, in declaration order. *)
Theorem initialize_degraded (app : TradingApp W) (s : state W) :
  initialized app = false ->
  0 < length (succeeded 0 (clients app) s) < length (clients app) ->
  (lower (degraded_answer input app s) <> "yes" ->
     exists app' s', initialize input app s = (Ret (false, app'), s')) /\
  (lower (degraded_answer input app s) = "yes" ->
     exists app' s',
       initialize input app s = (Ret (true, app'), s') /\
       authenticated_clients app' = succeeded 0 (clients app) s /\
       initialized app' = true).
Proof.
  intros Hinit [Hpos Hlt].
  destruct (initialize_unfold app s Hinit) as (cs & s1 & Hlen & Hs1 & Hrun).
  cbv zeta in Hrun. unfold degraded_answer. rewrite <- Hs1.
  destruct (succeeded 0 (clients app) s) as [|j auth] eqn:Hok; [simpl in Hpos; lia|].
  apply Nat.ltb_lt in Hlt. rewrite Hlt in Hrun.
  destruct (input degraded_prompt (world s1)) as [response w2]. simpl.
  split; intros Hans.
  - apply String.eqb_neq in Hans. rewrite Hans in Hrun. simpl in Hrun. eauto.
  - apply String.eqb_eq in Hans. rewrite Hans in Hrun. simpl in Hrun.
    eexists _, _. split; [exact Hrun|]. split; reflexivity.
Qed.

(** C5: when no backend succeeds authentication and verification,
    [initialize] returns false and leaves the authenticated list empty. *)
Theorem initialize_none (app : TradingApp W) (s : state W) :
  initialized app = false ->
  succeeded 0 (clients app) s = [] ->
  exists app' s',
    initialize input app s = (Ret (false, app'), s') /\
    authenticated_clients app' = [].
Proof.
  intros Hinit Hnone.
  destruct (initialize_unfold app s Hinit) as (cs & s1 & Hlen & Hs1 & Hrun).
  cbv zeta in Hrun. rewrite Hnone in Hrun.
  eexists _, _. split; [exact Hrun | reflexivity].
Qed.

End Lifecycle.

(** C4 on five backends of which the first and the last succeed. *)
Lemma initialize_degraded_witness :
  (exists app' s',
     initialize (Double.says "no") Double.mixed_app Double.s0 = (Ret (false, app'), s')) /\
  (exists app' s',
     initialize (Double.says "YES") Double.mixed_app Double.s0 = (Ret (true, app'), s') /\
     authenticated_clients app' = [0; 4] /\
     initialized app' = true).
Proof.
  assert (0 < length (succeeded 0 (clients Double.mixed_app) Double.s0)
          < length (clients Double.mixed_app)) as Hk by (vm_compute; lia).
  split.
  - apply (initialize_degraded (Double.says "no") Double.mixed_app Double.s0 eq_refl Hk).
    vm_compute. discriminate.
  - apply (initialize_degraded (Double.says "YES") Double.mixed_app Double.s0 eq_refl Hk).
    vm_compute. reflexivity.
Defined.

(** C5 on three backends: one rejected, one timed out, one unverifiable. *)
Lemma initialize_none_witness :
  exists app' s',
    initialize (Double.says "yes") Double.failing_app Double.s0 = (Ret (false, app'), s') /\
    authenticated_clients app' = [].
Proof.
  apply (initialize_none (Double.says "yes") Double.failing_app Double.s0 eq_refl).
  vm_compute. reflexivity.
Defined.

(** ** Trade execution *)

Lemma in_flight_cons (t : task) (ts : list task) :
  in_flight (t :: ts) = (if is_in_flight t then 1 else 0) + in_flight ts.
Proof.
  unfold in_flight. rewrite filter_cons.
  destruct (decide (is_in_flight t = true)) as [E|E].
  - rewrite E. reflexivity.
  - destruct (is_in_flight t); [congruence | reflexivity].
Qed.

Lemma in_flight_insert (ts : list task) :
  forall (i : nat) (t t' : task),
    ts !! i = Some t ->
    in_flight (<[i := t']> ts) + (if is_in_flight t then 1 else 0)
      = in_flight ts + (if is_in_flight t' then 1 else 0).
Proof.
  induction ts as [|u ts IH]; intros i t t' Hi.
  - rewrite lookup_nil in Hi. discriminate.
  - destruct i as [|i]; simpl in *.
    + injection Hi as ->. rewrite !in_flight_cons. lia.
    + rewrite !in_flight_cons. specialize (IH i t t' Hi). lia.
Qed.

Lemma in_flight_pending (A : Type) (l : list A) :
  in_flight (map (fun _ => Pending) l) = 0.
Proof.
  induction l as [|a l IH]; [reflexivity|].
  simpl. rewrite in_flight_cons, IH. reflexivity.
Qed.

Lemma in_flight_pos (ts : list task) :
  0 < in_flight ts -> exists j, ts !! j = Some InFlight.
Proof.
  induction ts as [|t ts IH]; intros H.
  - unfold in_flight in H. simpl in H. lia.
  - rewrite in_flight_cons in H. destruct t; simpl in H.
    + destruct (IH H) as [j Hj]. exists (S j). exact Hj.
    + exists 0. reflexivity.
    + destruct (IH H) as [j Hj]. exists (S j). exact Hj.
Qed.

Lemma remaining_insert (ts : list task) :
  forall (i : nat) (t t' : task),
    ts !! i = Some t ->
    remaining (<[i := t']> ts) + steps_left t = remaining ts + steps_left t'.
Proof.
  induction ts as [|u ts IH]; intros i t t' Hi.
  - rewrite lookup_nil in Hi. discriminate.
  - destruct i as [|i]; simpl in *.
    + injection Hi as ->. lia.
    + specialize (IH i t t' Hi). lia.
Qed.

Lemma remaining_pending (A : Type) (l : list A) :
  remaining (map (fun _ => Pending) l) = 2 * length l.
Proof.
  induction l as [|a l IH]; [reflexivity|]. simpl in *. lia.
Qed.

Lemma results_of_all (ts : list task) :
  forall bs, results_of ts = Some bs ->
    length bs = length ts /\
    first_exception ts = None /\
    forall i t, ts !! i = Some t -> exists b, t = Finished (Ret b).
Proof.
  induction ts as [|t ts IH]; intros bs H; simpl in H.
  - injection H as <-. repeat split. intros i t Hi. rewrite lookup_nil in Hi. discriminate.
  - destruct t as [| |[b|e]]; try discriminate.
    destruct (results_of ts) as [bs'|] eqn:E; [|discriminate].
    injection H as <-. destruct (IH bs' eq_refl) as (Hlen & Hex & Hall).
    repeat split.
    + simpl. rewrite Hlen. reflexivity.
    + exact Hex.
    + intros [|i] t Hi; simpl in Hi.
      * injection Hi as <-. eauto.
      * eauto.
Qed.

Lemma unsettled_task (ts : list task) :
  first_exception ts = None -> results_of ts = None ->
  exists i, ts !! i = Some Pending \/ ts !! i = Some InFlight.
Proof.
  induction ts as [|t ts IH]; simpl; intros Hex Hres; [discriminate|].
  destruct t as [| |[b|e]].
  - exists 0. left. reflexivity.
  - exists 0. right. reflexivity.
  - destruct (results_of ts) as [bs|]; [discriminate|].
    destruct (IH Hex eq_refl) as [i Hi]. exists (S i). exact Hi.
  - discriminate.
Qed.

Lemma unsettled (ts : list task) :
  settled ts = None ->
  exists i, ts !! i = Some Pending \/ ts !! i = Some InFlight.
Proof.
  unfold settled. intros H.
  destruct (first_exception ts) eqn:Hex; [discriminate|].
  destruct (results_of ts) eqn:Hres; [discriminate|].
  apply unsettled_task; assumption.
Qed.

(** A task that raised stays in the list whatever the other tasks do. *)
Lemma first_exception_insert (ts : list task) :
  forall (i : nat) (t' : task),
    (ts !! i = Some Pending \/ ts !! i = Some InFlight) ->
    is_Some (first_exception ts) ->
    is_Some (first_exception (<[i := t']> ts)).
Proof.
  induction ts as [|t ts IH]; intros i t' Hi Hex; simpl in *.
  - destruct Hex as [e He]. discriminate.
  - destruct i as [|i]; simpl in *.
    + destruct Hi as [[= ->]|[= ->]]; destruct t' as [| |[b|e]]; simpl; eauto.
    + destruct t as [| |[b|e]]; simpl; eauto.
Qed.

Section Trades.
Context {W : Type}.
Variable client : Client W.
Variables action ticker : string.
Variable price : float.

Abbreviation step := (Strategy.step client action ticker price).
Abbreviation run := (Strategy.run client action ticker price).
Abbreviation gather := (Strategy.gather client action ticker price).
Abbreviation cap := (concur_trades (self client)).
Abbreviation ids := (values (accounts (self client))).
Abbreviation sched := (@Strategy.sched W).

Lemma step_cases (s s' : sched) (ch : choice) :
  step s ch = Some s' ->
  (exists i, ch = Enter i /\ tasks s !! i = Some Pending /\ (0 < permits s)%Z /\
             s' = mkSched (permits s - 1) (<[i := InFlight]> (tasks s)) (st s)) \/
  (exists i account_id,
     ch = Leave i /\ tasks s !! i = Some InFlight /\ ids !! i = Some account_id /\
     s' = mkSched (permits s + 1)
            (<[i := Finished (fst (place_trade client action ticker price account_id (st s)))]>
               (tasks s))
            (snd (place_trade client action ticker price account_id (st s)))).
Proof.
  destruct ch as [i|i]; simpl.
  - destruct (tasks s !! i) as [[| |r]|] eqn:Ht; try discriminate.
    destruct (0 <? permits s)%Z eqn:Hp; try discriminate.
    intros [= <-]. left. exists i. apply Z.ltb_lt in Hp. repeat split; assumption.
  - destruct (tasks s !! i) as [[| |r]|] eqn:Ht; try discriminate.
    destruct (ids !! i) as [account_id|] eqn:Ha; try discriminate.
    destruct (place_trade client action ticker price account_id (st s)) as [r st'] eqn:Hr.
    intros [= <-]. right. exists i, account_id. rewrite Hr. repeat split; assumption.
Qed.

Lemma step_inv (s s' : sched) (ch : choice) :
  sem_inv client s -> step s ch = Some s' -> sem_inv client s'.
Proof.
  intros (Hlen & Hpos & Hsum) Hstep.
  destruct (step_cases s s' ch Hstep)
    as [(i & _ & Ht & Hp & ->) | (i & a & _ & Ht & _ & ->)]; unfold sem_inv; simpl.
  - rewrite length_insert. pose proof (in_flight_insert _ i _ InFlight Ht) as Hf.
    simpl in Hf. repeat split; [assumption | lia | lia].
  - rewrite length_insert.
    pose proof (in_flight_insert _ i _
                  (Finished (fst (place_trade client action ticker price a (st s)))) Ht) as Hf.
    simpl in Hf. repeat split; [assumption | lia | lia].
Qed.

Lemma run_inv (schedule : list choice) :
  forall s s', sem_inv client s -> run s schedule = Some s' -> sem_inv client s'.
Proof.
  induction schedule as [|ch rest IH]; intros s s' Hinv Hrun; simpl in Hrun.
  - injection Hrun as <-. exact Hinv.
  - destruct (step s ch) as [s1|] eqn:Hstep; [|discriminate].
    eapply IH; [|exact Hrun]. eapply step_inv; eassumption.
Qed.

Lemma start_inv (s0 : state W) : (0 <= cap)%Z -> sem_inv client (start client s0).
Proof.
  intros Hcap. unfold sem_inv, start; simpl.
  rewrite length_map, in_flight_pending. repeat split; [assumption | lia].
Qed.

Lemma step_tasks (s s' : sched) (ch : choice) :
  step s ch = Some s' ->
  exists i t',
    (tasks s !! i = Some Pending \/ tasks s !! i = Some InFlight) /\
    tasks s' = <[i := t']> (tasks s) /\
    match ch with
    | Enter j => j = i /\ t' = InFlight
    | Leave j => j = i /\ exists r, t' = Finished r
    end.
Proof.
  intros Hstep.
  destruct (step_cases s s' ch Hstep)
    as [(i & -> & Ht & Hp & ->) | (i & a & -> & Ht & _ & ->)]; simpl.
  - exists i, InFlight. auto.
  - eexists i, _. split; [auto|]. split; [reflexivity|]. eauto.
Qed.

Lemma step_remaining (s s' : sched) (ch : choice) :
  step s ch = Some s' -> remaining (tasks s) = S (remaining (tasks s')).
Proof.
  intros Hstep.
  destruct (step_cases s s' ch Hstep)
    as [(i & _ & Ht & _ & ->) | (i & a & _ & Ht & _ & ->)]; simpl.
  - pose proof (remaining_insert _ i _ InFlight Ht) as H. simpl in H. lia.
  - pose proof (remaining_insert _ i _
                  (Finished (fst (place_trade client action ticker price a (st s)))) Ht) as H.
    simpl in H. lia.
Qed.

Lemma run_remaining (schedule : list choice) :
  forall s s', run s schedule = Some s' ->
    remaining (tasks s) = length schedule + remaining (tasks s').
Proof.
  induction schedule as [|ch rest IH]; intros s s' Hrun; simpl in Hrun.
  - injection Hrun as <-. reflexivity.
  - destruct (step s ch) as [s1|] eqn:Hstep; [|discriminate].
    rewrite (step_remaining _ _ _ Hstep), (IH _ _ Hrun). reflexivity.
Qed.

(** Until gather has its answer, some task can proceed. *)
Lemma progress (s : sched) :
  sem_inv client s -> (0 < cap)%Z -> settled (tasks s) = None ->
  exists ch s', step s ch = Some s'.
Proof.
  intros (Hlen & Hpos & Hsum) Hcap Hun.
  assert (forall j, tasks s !! j = Some InFlight -> exists ch s', step s ch = Some s') as Hleave.
  { intros j Hj. exists (Leave j). simpl. rewrite Hj.
    destruct (ids !! j) as [a|] eqn:Ha.
    - destruct (place_trade client action ticker price a (st s)) as [r st']. eauto.
    - apply lookup_ge_None in Ha. apply lookup_lt_Some in Hj. lia. }
  destruct (unsettled _ Hun) as [i [Hi|Hi]]; [|eauto].
  destruct (0 <? permits s)%Z eqn:Hp.
  - exists (Enter i). simpl. rewrite Hi, Hp. eauto.
  - apply Z.ltb_ge in Hp.
    destruct (in_flight_pos (tasks s)) as [j Hj]; [lia | eauto].
Qed.

Lemma gather_returns (m : nat) :
  forall s, remaining (tasks s) = m -> sem_inv client s -> (0 < cap)%Z ->
    exists schedule r, gather s schedule = Some r.
Proof.
  induction m as [|m IH]; intros s Hm Hinv Hcap.
  - exists []. simpl. destruct (settled (tasks s)) as [r|] eqn:Hs; [eauto|].
    destruct (progress s Hinv Hcap Hs) as (ch & s' & Hstep).
    apply step_remaining in Hstep. lia.
  - destruct (settled (tasks s)) as [r|] eqn:Hs.
    + exists []. simpl. rewrite Hs. eauto.
    + destruct (progress s Hinv Hcap Hs) as (ch & s' & Hstep).
      destruct (IH s') as (rest & r & Hr).
      * apply step_remaining in Hstep. lia.
      * eapply step_inv; eassumption.
      * assumption.
      * exists (ch :: rest), r. simpl. rewrite Hs, Hstep. exact Hr.
Qed.

Lemma run_keeps_exception (schedule : list choice) :
  forall s s', run s schedule = Some s' ->
    is_Some (first_exception (tasks s)) -> is_Some (first_exception (tasks s')).
Proof.
  induction schedule as [|ch rest IH]; intros s s' Hrun Hex; simpl in Hrun.
  - injection Hrun as <-. exact Hex.
  - destruct (step s ch) as [s1|] eqn:Hstep; [|discriminate].
    apply (IH _ _ Hrun).
    destruct (step_tasks _ _ _ Hstep) as (i & t' & Hi & -> & _).
    apply first_exception_insert; assumption.
Qed.

(** A schedule that runs every task to a boolean is one under which gather
    answers with those booleans, in the state the last task left. *)
Lemma gather_run (schedule : list choice) :
  forall s s' results,
    run s schedule = Some s' ->
    settled (tasks s') = Some (Ret results) ->
    gather s schedule = Some (Ret results, st s').
Proof.
  induction schedule as [|ch rest IH]; intros s s' results Hrun Hset; simpl in Hrun.
  - injection Hrun as <-. simpl. rewrite Hset. reflexivity.
  - destruct (step s ch) as [s1|] eqn:Hstep; [|discriminate].
    simpl. destruct (settled (tasks s)) as [r|] eqn:Hs.
    + exfalso. unfold settled in Hs, Hset.
      destruct (first_exception (tasks s)) as [e|] eqn:Hex.
      * assert (is_Some (first_exception (tasks s'))) as [e' He'].
        { eapply (run_keeps_exception (ch :: rest) s s').
          - simpl. rewrite Hstep. exact Hrun.
          - rewrite Hex. eauto. }
        rewrite He' in Hset. discriminate.
      * destruct (results_of (tasks s)) as [bs|] eqn:Hres; [|discriminate].
        destruct (results_of_all _ _ Hres) as (_ & _ & Hall).
        destruct (step_tasks _ _ _ Hstep) as (i & t' & [Hi|Hi] & _);
          destruct (Hall _ _ Hi) as [b Hb]; discriminate.
    + rewrite Hstep. eapply IH; eassumption.
Qed.

(** The placement calls a schedule lets return are calls of distinct tasks
    that had not returned before, and they are the tasks that finish. *)
Lemma run_leaves (schedule : list choice) :
  forall s s', run s schedule = Some s' ->
    NoDup (leaves schedule) /\
    (forall i, i ∈ leaves schedule -> forall r, tasks s !! i <> Some (Finished r)) /\
    (forall i, (exists r, tasks s' !! i = Some (Finished r)) <->
               (exists r, tasks s !! i = Some (Finished r)) \/ i ∈ leaves schedule).
Proof.
  induction schedule as [|ch rest IH]; intros s s' Hrun; simpl in Hrun.
  - injection Hrun as <-. simpl. split; [constructor|]. split.
    + intros i Hi. inversion Hi.
    + intros i. split; [auto|]. intros [H|H]; [exact H | inversion H].
  - destruct (step s ch) as [s1|] eqn:Hstep; [|discriminate].
    destruct (IH _ _ Hrun) as (Hnd & Hfresh & Hfin).
    destruct (step_tasks _ _ _ Hstep) as (i & t' & Hi & Ht & Hch).
    assert (forall j r, tasks s !! j = Some (Finished r) -> tasks s1 !! j = Some (Finished r))
      as Hkeep.
    { intros j r Hj. rewrite Ht. destruct (decide (i = j)) as [->|Hne].
      - destruct Hi as [Hi|Hi]; rewrite Hi in Hj; discriminate.
      - rewrite list_lookup_insert_ne by assumption. exact Hj. }
    assert (i < length (tasks s)) as Hlt.
    { destruct Hi as [Hi|Hi]; apply lookup_lt_Some in Hi; exact Hi. }
    destruct ch as [j|j]; destruct Hch as [-> Hch]; simpl.
    + subst t'. split; [exact Hnd|]. split.
      * intros k Hk r Hr. apply (Hfresh k Hk r). apply Hkeep. exact Hr.
      * intros k. rewrite Hfin. rewrite Ht.
        destruct (decide (i = k)) as [->|Hne].
        -- rewrite list_lookup_insert_eq by assumption.
           split; intros [[r Hr]|Hk]; auto; try discriminate.
           destruct Hi as [Hi|Hi]; rewrite Hi in Hr; discriminate.
        -- rewrite list_lookup_insert_ne by assumption. reflexivity.
    + destruct Hch as [r0 ->].
      assert (tasks s1 !! i = Some (Finished r0)) as Hi1.
      { rewrite Ht. apply list_lookup_insert_eq. exact Hlt. }
      split; [|split].
      * constructor; [|exact Hnd]. intros Hin. exact (Hfresh i Hin r0 Hi1).
      * intros k Hk r Hr. apply elem_of_cons in Hk as [->|Hk].
        -- destruct Hi as [Hi|Hi]; rewrite Hi in Hr; discriminate.
        -- apply (Hfresh k Hk r). apply Hkeep. exact Hr.
      * intros k. rewrite Hfin. rewrite elem_of_cons.
        destruct (decide (i = k)) as [->|Hne].
        -- split; [auto|]. intros _. left. eauto.
        -- rewrite Ht. rewrite list_lookup_insert_ne by assumption.
           split; intros [H|H]; auto.
           destruct H as [H|H]; [congruence | auto].
Qed.

Lemma run_app (pre : list choice) :
  forall post s s',
    run s (pre ++ post) = Some s' <->
    exists mid, run s pre = Some mid /\ run mid post = Some s'.
Proof.
  induction pre as [|ch pre IH]; intros post s s'; simpl.
  - split; [eauto|]. intros (mid & [= <-] & H). exact H.
  - destruct (step s ch) as [s1|]; [apply IH|].
    split; [discriminate|]. intros (mid & H & _). discriminate.
Qed.

(** When gather answers, a prefix of the schedule has run the tasks to the
    point where the answer is settled. *)
Lemma gather_prefix (schedule : list choice) :
  forall s r s',
    gather s schedule = Some (r, s') ->
    exists pre post sch,
      schedule = pre ++ post /\ run s pre = Some sch /\
      settled (tasks sch) = Some r /\ st sch = s'.
Proof.
  induction schedule as [|ch rest IH]; intros s r s' Hg; simpl in Hg.
  - destruct (settled (tasks s)) as [r0|] eqn:Hs; [|discriminate].
    injection Hg as <- <-. exists [], [], s. auto.
  - destruct (settled (tasks s)) as [r0|] eqn:Hs.
    + injection Hg as <- <-. exists [], (ch :: rest), s. auto.
    + destruct (step s ch) as [s1|] eqn:Hstep; [|discriminate].
      destruct (IH _ _ _ Hg) as (pre & post & sch & -> & Hrun & Hset & Hst).
      exists (ch :: pre), post, sch. simpl. rewrite Hstep. auto.
Qed.

(** What a schedule has done when it has run: the placement calls it let
    return were made one after another in that order, each the placement
    call of the side for the account of its task, and the tasks that have
    finished since are the ones those calls answered. *)
Lemma run_placements (schedule : list choice) :
  forall s s', run s schedule = Some s' ->
    exists log,
      placements client action ticker price (leaves schedule) (st s) = (log, st s') /\
      forall i r, tasks s' !! i = Some (Finished r) <->
                  tasks s !! i = Some (Finished r) \/ (i, r) ∈ log.
Proof.
  induction schedule as [|ch rest IH]; intros s s' Hrun; simpl in Hrun.
  - injection Hrun as <-. exists []. split; [reflexivity|].
    intros i r. rewrite elem_of_nil. tauto.
  - destruct (step s ch) as [s1|] eqn:Hstep; [|discriminate].
    destruct (IH _ _ Hrun) as (log & Hlog & Hfin).
    destruct (step_cases s s1 ch Hstep)
      as [(i & -> & Ht & _ & ->) | (i & a & -> & Ht & Ha & ->)]; simpl in *.
    + exists log. split; [exact Hlog|].
      intros k r. rewrite Hfin. apply lookup_lt_Some in Ht as Hlt.
      destruct (decide (i = k)) as [<-|Hne].
      * rewrite list_lookup_insert_eq by assumption. rewrite Ht.
        split; intros [H|H]; auto; discriminate.
      * rewrite list_lookup_insert_ne by assumption. reflexivity.
    + rewrite Ha.
      change (placement_call client action ticker price a (st s))
        with (place_trade client action ticker price a (st s)).
      destruct (place_trade client action ticker price a (st s)) as [r0 st1]; simpl in *.
      rewrite Hlog. exists ((i, r0) :: log). split; [reflexivity|].
      intros k r. rewrite Hfin, elem_of_cons. apply lookup_lt_Some in Ht as Hlt.
      destruct (decide (i = k)) as [<-|Hne].
      * rewrite list_lookup_insert_eq by assumption. rewrite Ht.
        split.
        -- intros [[= <-]|H]; auto.
        -- intros [H|[[= ->]|H]]; auto; discriminate.
      * rewrite list_lookup_insert_ne by assumption.
        split.
        -- intros [H|H]; auto.
        -- intros [H|[[= Hk _]|H]]; auto. congruence.
Qed.

(** When no placement call raises, every call of a sequence returns. *)
Lemma placements_return (order : list nat) :
  (forall account_id s, account_id ∈ ids ->
     exists b s', placement_call client action ticker price account_id s = (Ret b, s')) ->
  forall s log s',
    placements client action ticker price order s = (log, s') ->
    forall i r, (i, r) ∈ log -> exists b, r = Ret b.
Proof.
  intros Hret. induction order as [|j rest IH]; intros s log s' Hp i r Hin; simpl in Hp.
  - injection Hp as <- _. inversion Hin.
  - destruct (ids !! j) as [a|] eqn:Ha; [|eapply IH; eassumption].
    destruct (Hret a s) as (b & s1 & Hb); [eapply list_elem_of_lookup_2; exact Ha|].
    rewrite Hb in Hp.
    destruct (placements client action ticker price rest s1) as [log1 s2] eqn:Hrest.
    injection Hp as <- _. apply elem_of_cons in Hin as [[= _ ->]|Hin]; [eauto|].
    eapply IH; eassumption.
Qed.

Lemma first_exception_finished (ts : list task) (e : exn) :
  first_exception ts = Some e -> exists i, ts !! i = Some (Finished (Raise e)).
Proof.
  induction ts as [|t ts IH]; simpl; [discriminate|].
  destruct t as [| |[b|e']].
  - intros H. destruct (IH H) as [i Hi]. exists (S i). exact Hi.
  - intros H. destruct (IH H) as [i Hi]. exists (S i). exact Hi.
  - intros H. destruct (IH H) as [i Hi]. exists (S i). exact Hi.
  - intros [= ->]. exists 0. reflexivity.
Qed.

(** The results gather hands over are the booleans of the tasks, in task
    order. *)
Lemma results_of_lookup (ts : list task) :
  forall bs, results_of ts = Some bs ->
    forall i b, bs !! i = Some b <-> ts !! i = Some (Finished (Ret b)).
Proof.
  induction ts as [|t ts IH]; intros bs H i b; simpl in H.
  - injection H as <-. rewrite !lookup_nil. split; discriminate.
  - destruct t as [| |[b0|e]]; try discriminate.
    destruct (results_of ts) as [bs'|] eqn:E; [|discriminate].
    injection H as <-. destruct i as [|i]; simpl.
    + split; intros [= ->]; reflexivity.
    + apply IH. reflexivity.
Qed.

(** C7: on a backend with accounts and a positive cap none of whose
    placement calls raises, the fan-out has one task per account; whatever
    has happened so far (placements that returned false included), some task
    can proceed until gather has its answer, and a schedule is never longer
    than two steps per account; the call returns a pair under some schedule.
    Whenever the call comes back, it has made exactly one placement call per
    account (the buy wrapper for the side "buy", the sell wrapper otherwise),
    one after another in the order the schedule let them return, it ends in
    the state the last of them left, and it returns the number of those
    calls that returned true together with the number of accounts. *)
Theorem execute_client_trades_fan_in (s0 : state W) :
  accounts (self client) <> [] ->
  (0 < cap)%Z ->
  (forall account_id s, account_id ∈ ids ->
     exists b s', placement_call client action ticker price account_id s = (Ret b, s')) ->
  let n := length (accounts (self client)) in
  length (tasks (start client s0)) = n /\
  (forall schedule sch,
     run (start client s0) schedule = Some sch ->
     length schedule <= 2 * n /\
     (settled (tasks sch) = None -> exists ch sch', step sch ch = Some sch')) /\
  (exists schedule k s',
     execute_client_trades client action ticker price schedule s0 = Some (Ret (k, n), s')) /\
  (forall schedule r s',
     execute_client_trades client action ticker price schedule s0 = Some (r, s') ->
     exists order log results,
       order ≡ₚ seq 0 n /\
       placements client action ticker price order s0 = (log, s') /\
       length results = n /\
       (forall i b, results !! i = Some b <-> (i, Ret b) ∈ log) /\
       r = Ret (success_count results, n)).
Proof.
  intros Hacc Hcap Hret n.
  assert (length ids = n) as Hids by (unfold values; apply length_map).
  assert (length (tasks (start client s0)) = n) as Hstart.
  { unfold start; simpl. rewrite length_map. exact Hids. }
  assert (sem_inv client (start client s0)) as Hinv0 by (apply start_inv; lia).
  assert (remaining (tasks (start client s0)) = 2 * n) as Hrem.
  { unfold start; simpl. rewrite remaining_pending, Hids. reflexivity. }
  assert (forall schedule s,
            execute_client_trades client action ticker price schedule s
            = match gather (start client s) schedule with
              | Some (Ret results, s') => Some (Ret (success_count results, n), s')
              | Some (Raise e, s') => Some (Raise e, s')
              | None => None
              end) as Hexec.
  { intros schedule s. unfold execute_client_trades.
    destruct (accounts (self client)) as [|a rest] eqn:Ha; [congruence|].
    destruct (cap <? 0)%Z eqn:Hneg; [apply Z.ltb_lt in Hneg; lia|].
    reflexivity. }
  assert (forall schedule r s',
            execute_client_trades client action ticker price schedule s0 = Some (r, s') ->
            exists order log results,
              order ≡ₚ seq 0 n /\
              placements client action ticker price order s0 = (log, s') /\
              length results = n /\
              (forall i b, results !! i = Some b <-> (i, Ret b) ∈ log) /\
              r = Ret (success_count results, n)) as Hback.
  { intros schedule r s' Hrun. rewrite Hexec in Hrun.
    destruct (gather (start client s0) schedule) as [[r0 s1]|] eqn:Hg; [|discriminate].
    destruct (gather_prefix schedule _ _ _ Hg) as (pre & post & sch & _ & Hpre & Hset & Hst).
    destruct (run_placements pre _ _ Hpre) as (log & Hlog & Hfin).
    simpl in Hlog. rewrite Hst in Hlog.
    assert (forall i r1, tasks sch !! i = Some (Finished r1) <-> (i, r1) ∈ log) as Hfin'.
    { intros i r1. rewrite Hfin. split; [|auto]. intros [H|H]; [|exact H].
      unfold start in H; simpl in H. rewrite list_lookup_fmap in H.
      destruct (ids !! i); discriminate. }
    assert (first_exception (tasks sch) = None) as Hnone.
    { destruct (first_exception (tasks sch)) as [e|] eqn:Hex; [|reflexivity].
      destruct (first_exception_finished _ _ Hex) as [i Hi].
      apply Hfin' in Hi.
      destruct (placements_return (leaves pre) Hret _ _ _ Hlog _ _ Hi) as [b Hb]. discriminate. }
    unfold settled in Hset. rewrite Hnone in Hset.
    destruct (results_of (tasks sch)) as [results|] eqn:Hres; [|discriminate].
    injection Hset as <-. injection Hrun as <- <-.
    destruct (results_of_all _ _ Hres) as (Hlen & _ & Hall).
    destruct (run_inv pre _ _ Hinv0 Hpre) as (Hlen' & _ & _).
    destruct (run_leaves pre _ _ Hpre) as (Hnd & _ & Hleft).
    exists (leaves pre), log, results. split; [|split; [|split; [|split]]].
    - apply NoDup_Permutation; [exact Hnd | apply NoDup_seq |].
      intros i. rewrite elem_of_seq. split.
      + intros Hi. assert (exists r, tasks sch !! i = Some (Finished r)) as [r Hr].
        { apply Hleft. right. exact Hi. }
        apply lookup_lt_Some in Hr. lia.
      + intros [_ Hi]. simpl in Hi.
        destruct (tasks sch !! i) as [t|] eqn:Ht.
        * destruct (Hall _ _ Ht) as [b ->].
          destruct (proj1 (Hleft i) ltac:(eauto)) as [[r Hr]|Hin]; [|exact Hin].
          unfold start in Hr; simpl in Hr. rewrite list_lookup_fmap in Hr.
          destruct (ids !! i); discriminate.
        * apply lookup_ge_None in Ht. lia.
    - exact Hlog.
    - rewrite Hlen, Hlen'. exact Hids.
    - intros i b. rewrite (results_of_lookup _ _ Hres). apply Hfin'.
    - reflexivity. }
  split; [exact Hstart|]. split; [|split; [|exact Hback]].
  - intros schedule sch Hrun. split.
    + apply run_remaining in Hrun. lia.
    + intros Hun. apply progress; [|assumption|assumption].
      eapply run_inv; eassumption.
  - destruct (gather_returns (2 * n) (start client s0) Hrem Hinv0 Hcap)
      as (schedule & [r s'] & Hg).
    assert (exists r', execute_client_trades client action ticker price schedule s0
                       = Some (r', s')) as [r' Hr'].
    { rewrite Hexec, Hg. destruct r; eauto. }
    destruct (Hback _ _ _ Hr') as (_ & _ & results & _ & _ & _ & _ & ->).
    eauto.
Qed.

End Trades.

(** C7 on the double: three accounts, the buy of "A2" is blocked by the
    position rule, the other two are placed. *)
Lemma execute_client_trades_fan_in_witness :
  exists order log s',
    execute_client_trades Double.ready "buy" "XYZ" 10%float Double.in_turn Double.s0
      = Some (Ret (2, 3), s') /\
    order ≡ₚ [0; 1; 2] /\
    placements Double.ready "buy" "XYZ" 10%float order Double.s0 = (log, s').
Proof.
  destruct (execute_client_trades Double.ready "buy" "XYZ" 10%float Double.in_turn Double.s0)
    as [[r s']|] eqn:Hrun; [|vm_compute in Hrun; discriminate].
  destruct (execute_client_trades_fan_in Double.ready "buy" "XYZ" 10%float Double.s0)
    as (_ & _ & _ & Hback).
  - discriminate.
  - reflexivity.
  - intros account_id s Hin. simpl in Hin.
    rewrite !elem_of_cons, elem_of_nil in Hin.
    destruct Hin as [->|[->|[->|[]]]]; destruct s as [[] tr]; eexists _, _; cbv; reflexivity.
  - destruct (Hback _ _ _ Hrun) as (order & log & results & Hperm & Hlog & _ & _ & _).
    exists order, log, s'. split; [|split; assumption].
    vm_compute in Hrun. injection Hrun as <- _. reflexivity.
Defined.

(** The claim without the condition on the placement calls fails: on a
    backend with three accounts and cap 1 whose order submission raises,
    [execute_client_trades] raises and returns no pair. *)
Lemma execute_client_trades_raises :
  length (accounts (self Cases.broken)) = 3 /\
  concur_trades (self Cases.broken) = 1%Z /\
  exists e s',
    execute_client_trades Cases.broken "buy" "XYZ" 10%float Double.in_turn Double.s0
      = Some (Raise e, s').
Proof.
  split; [reflexivity|]. split; [reflexivity|].
  eexists _, _. vm_compute. reflexivity.
Defined.

(** ** Balance aggregation *)











Section Balances.
Context {W : Type}.



End Balances.


End StrategySpec.

(** * Further properties of the shared client layer *)

Module BaseExtra.
Import Base BaseSpec.

(** ** Account numbers *)

(** In a table whose identifiers are distinct, every entry is found under
    its identifier. *)
Lemma account_number_found (accts : list (Z * string)) (account_id : string) (num : Z) :
  NoDup (map snd accts) -> (num, account_id) ∈ accts ->
  get_account_number_from_id accts account_id = Some num.
Proof.
  induction accts as [|[n a] accts IH]; intros Hnd Hin; simpl in *.
  - inversion Hin.
  - apply NoDup_cons in Hnd as [Hfresh Hnd].
    apply elem_of_cons in Hin as [[= -> ->]|Hin].
    + rewrite String.eqb_refl. reflexivity.
    + destruct (String.eqb a account_id) eqn:E; [|apply IH; assumption].
      apply String.eqb_eq in E. subst a. exfalso. apply Hfresh.
      apply list_elem_of_fmap. exists (num, account_id). auto.
Qed.

(** The entry the lookup names is in the table. *)
Lemma account_number_member (accts : list (Z * string)) (account_id : string) (num : Z) :
  get_account_number_from_id accts account_id = Some num -> (num, account_id) ∈ accts.
Proof.
  induction accts as [|[n a] accts IH]; simpl; [discriminate|].
  destruct (String.eqb a account_id) eqn:E.
  - apply String.eqb_eq in E. subst a. intros [= <-]. left.
  - intros H. right. apply IH. exact H.
Qed.

(** X1: [get_account_number_from_id] answers with the number of the first
    entry of the account table that carries the identifier: the entry it
    names is in the table, it answers [None] exactly for an identifier that
    no entry carries, and in a table whose identifiers are distinct every
    entry is found under its identifier. *)
Theorem account_number_lookup (accts : list (Z * string)) (account_id : string) :
  (forall num, get_account_number_from_id accts account_id = Some num ->
     (num, account_id) ∈ accts) /\
  (get_account_number_from_id accts account_id = None <-> account_id ∉ map snd accts) /\
  (NoDup (map snd accts) ->
   forall num, (num, account_id) ∈ accts ->
     get_account_number_from_id accts account_id = Some num).
Proof.
  split; [|split].
  - intros num. apply account_number_member.
  - induction accts as [|[n a] accts IH]; simpl.
    + split; [intros _ H; inversion H | reflexivity].
    + destruct (String.eqb a account_id) eqn:E.
      * apply String.eqb_eq in E. subst a.
        split; [discriminate|]. intros H. exfalso. apply H. left.
      * apply String.eqb_neq in E. rewrite IH, not_elem_of_cons.
        split; [auto | intros [_ H]; exact H].
  - intros Hnd num Hin. apply account_number_found; assumption.
Qed.

Section Evaluator.
Context {W : Type}.
Variables (self : BaseClient) (venue : Venue W).
Variables (account_id ticker : string) (price : float).

(** X2: the precondition evaluator speaks exactly when it refuses: a true
    answer adds nothing to the log, a false answer adds one warning, and an
    exception of a venue primitive leaves the log as it was. *)
Theorem check_preconditions_warns (side : string) (s : state W) :
  match check_preconditions self venue account_id ticker price side s with
  | (Ret true, s') => trace s' = trace s
  | (Ret false, s') => exists l, trace s' = trace s ++ [Warning l]
  | (Raise _, s') => trace s' = trace s
  end.
Proof.
  unfold_check.
  destruct (authenticated self); simpl; [|eauto].
  destruct (is_tradable venue ticker (world s)) as [[[|]|e] w1]; simpl; eauto.
  destruct (is_market_open venue w1) as [[[|]|e] w2]; simpl; eauto.
  destruct (get_stock_holdings venue account_id w2) as [[holdings|e] w3]; simpl; eauto.
  destruct (String.eqb side "buy"); simpl.
  - destruct (holds holdings ticker); simpl; eauto.
    destruct (String.eqb side "sell" && true); simpl; eauto.
    destruct (get_account_balance venue account_id w3) as [[[b|]|e] w4]; simpl; eauto.
    destruct (PrimFloat.ltb b _); simpl; eauto.
  - destruct (String.eqb side "sell" && negb (holds holdings ticker)); simpl; eauto.
Qed.

(** X3: an unauthenticated backend places nothing.  Whatever the venue, both
    wrappers return false, leave the world untouched (no venue primitive is
    consulted), log the one warning and do not sleep. *)
Theorem unauthenticated_places_nothing (order_type : string) (s : state W) :
  authenticated self = false ->
  place_buy_orders self venue account_id ticker price order_type s
    = (Ret false, mkState (world s) (trace s ++ [Warning NotAuthenticated])) /\
  place_sell_orders self venue account_id ticker price order_type s
    = (Ret false, mkState (world s) (trace s ++ [Warning NotAuthenticated])).
Proof.
  intros Hauth.
  unfold place_buy_orders, place_sell_orders; unfold_check.
  rewrite Hauth. split; reflexivity.
Qed.

Lemma check_buy_unfold (s : state W) :
  check_preconditions self venue account_id ticker price "buy" s =
    if negb (authenticated self) then
      (Ret false, mkState (world s) (trace s ++ [Warning NotAuthenticated]))
    else
      match is_tradable venue ticker (world s) with
      | (Raise e, w1) => (Raise e, mkState w1 (trace s))
      | (Ret false, w1) =>
          (Ret false, mkState w1 (trace s ++ [Warning (NotTradable ticker (brokerage_name self))]))
      | (Ret true, w1) =>
          match is_market_open venue w1 with
          | (Raise e, w2) => (Raise e, mkState w2 (trace s))
          | (Ret false, w2) => (Ret false, mkState w2 (trace s ++ [Warning MarketClosed]))
          | (Ret true, w2) =>
              match get_stock_holdings venue account_id w2 with
              | (Raise e, w3) => (Raise e, mkState w3 (trace s))
              | (Ret holdings, w3) =>
                  if holds holdings ticker then
                    (Ret false,
                     mkState w3 (trace s ++ [Warning (AlreadyHasShare (brokerage_name self)
                                               (account_number self account_id) ticker)]))
                  else
                    match get_account_balance venue account_id w3 with
                    | (Raise e, w4) => (Raise e, mkState w4 (trace s))
                    | (Ret balance, w4) =>
                        if match balance with
                           | None => true
                           | Some b => PrimFloat.ltb b (threshold self price)
                           end
                        then
                          (Ret false,
                           mkState w4 (trace s ++ [Warning (InsufficientFunds (brokerage_name self)
                                                     (account_number self account_id) ticker)]))
                        else (Ret true, mkState w4 (trace s))
                    end
              end
          end
      end.
Proof.
  unfold_check. unfold threshold.
  destruct (authenticated self); simpl; [|reflexivity].
  destruct (is_tradable venue ticker (world s)) as [[[|]|e] w1]; simpl; try reflexivity.
  destruct (is_market_open venue w1) as [[[|]|e] w2]; simpl; try reflexivity.
  destruct (get_stock_holdings venue account_id w2) as [[holdings|e] w3]; simpl; try reflexivity.
  destruct (holds holdings ticker); simpl; [reflexivity|].
  destruct (get_account_balance venue account_id w3) as [[balance|e] w4]; simpl; try reflexivity.
  destruct (match balance with
            | Some b => PrimFloat.ltb b (price + transaction_fee self + buffer)
            | None => true
            end); reflexivity.
Qed.

(** X4: a buy is placed only through every gate.  [place_buy_orders]
    returns true exactly when the backend is authenticated, the ticker is
    tradable, the market is open, the fetched holdings do not contain the
    ticker, the balance is retrievable and not below the threshold, and the
    raw primitive, called in the world these queries left, returns true. *)
Theorem buy_placed_iff (order_type : string) (s : state W) :
  fst (place_buy_orders self venue account_id ticker price order_type s) = Ret true <->
  authenticated self = true /\
  exists w1 w2 w3 w4 w5 holdings b,
    is_tradable venue ticker (world s) = (Ret true, w1) /\
    is_market_open venue w1 = (Ret true, w2) /\
    get_stock_holdings venue account_id w2 = (Ret holdings, w3) /\
    holds holdings ticker = false /\
    get_account_balance venue account_id w3 = (Ret (Some b), w4) /\
    PrimFloat.ltb b (threshold self price) = false /\
    _place_buy_orders venue account_id ticker price order_type w4 = (Ret true, w5).
Proof.
  rewrite (place_buy_orders_unfold self venue), check_buy_unfold. split.
  - destruct (authenticated self); simpl; [|discriminate].
    destruct (is_tradable venue ticker (world s)) as [[[|]|e] w1] eqn:Ht;
      simpl; try discriminate.
    destruct (is_market_open venue w1) as [[[|]|e] w2] eqn:Hm; simpl; try discriminate.
    destruct (get_stock_holdings venue account_id w2) as [[holdings|e] w3] eqn:Hh;
      simpl; try discriminate.
    destruct (holds holdings ticker) eqn:Hheld; simpl; try discriminate.
    destruct (get_account_balance venue account_id w3) as [[[b|]|e] w4] eqn:Hb;
      simpl; try discriminate.
    destruct (PrimFloat.ltb b (threshold self price)) eqn:Hlt; simpl; try discriminate.
    destruct (_place_buy_orders venue account_id ticker price order_type w4)
      as [[[|]|e] w5] eqn:Hr; simpl; try discriminate.
    intros _. split; [reflexivity|].
    exists w1, w2, w3, w4, w5, holdings, b. repeat split; assumption.
  - intros (-> & w1 & w2 & w3 & w4 & w5 & holdings & b & -> & -> & -> & -> & -> & -> & Hr).
    simpl. rewrite Hr. reflexivity.
Qed.

(** X5: a sell is placed only on confirmed ownership.  [place_sell_orders]
    returns true exactly when the backend is authenticated, the ticker is
    tradable, the market is open, the holdings were fetched and contain the
    ticker, and the raw primitive returns true. *)
Theorem sell_placed_iff (order_type : string) (s : state W) :
  fst (place_sell_orders self venue account_id ticker price order_type s) = Ret true <->
  authenticated self = true /\
  exists w1 w2 w3 w4 h,
    is_tradable venue ticker (world s) = (Ret true, w1) /\
    is_market_open venue w1 = (Ret true, w2) /\
    get_stock_holdings venue account_id w2 = (Ret (Some h), w3) /\
    contains h ticker = true /\
    _place_sell_orders venue account_id ticker price order_type w3 = (Ret true, w4).
Proof.
  rewrite (place_sell_orders_unfold self venue), (check_sell_unfold self venue). split.
  - destruct (authenticated self); simpl; [|discriminate].
    destruct (is_tradable venue ticker (world s)) as [[[|]|e] w1] eqn:Ht;
      simpl; try discriminate.
    destruct (is_market_open venue w1) as [[[|]|e] w2] eqn:Hm; simpl; try discriminate.
    destruct (get_stock_holdings venue account_id w2) as [[holdings|e] w3] eqn:Hh;
      simpl; try discriminate.
    destruct (holds holdings ticker) eqn:Hheld; simpl; try discriminate.
    destruct (_place_sell_orders venue account_id ticker price order_type w3)
      as [[[|]|e] w4] eqn:Hr; simpl; try discriminate.
    intros _. split; [reflexivity|].
    destruct holdings as [h|]; [|discriminate].
    rewrite holds_Some in Hheld.
    exists w1, w2, w3, w4, h. repeat split; assumption.
  - intros (-> & w1 & w2 & w3 & w4 & h & -> & -> & -> & Hc & Hr).
    simpl. rewrite holds_Some, Hc. simpl. rewrite Hr. reflexivity.
Qed.

(** X6: over a venue none of whose primitives raises, the precondition
    evaluator and both wrappers always return a boolean. *)
Theorem wrappers_return (side order_type : string) (s : state W) :
  never_raises venue ->
  (exists b s', check_preconditions self venue account_id ticker price side s = (Ret b, s')) /\
  (exists b s', place_buy_orders self venue account_id ticker price order_type s = (Ret b, s')) /\
  (exists b s', place_sell_orders self venue account_id ticker price order_type s = (Ret b, s')).
Proof.
  intros (Hm & Ht & Hb & Hh & Hpb & Hps).
  assert (forall side s,
            exists b s', check_preconditions self venue account_id ticker price side s
                         = (Ret b, s')) as Hcheck.
  { clear s side. intros side s. unfold_check.
    destruct (authenticated self); simpl; [|eauto].
    destruct (Ht ticker (world s)) as (t & w1 & ->). simpl.
    destruct t; simpl; [|eauto].
    destruct (Hm w1) as (m & w2 & ->). simpl.
    destruct m; simpl; [|eauto].
    destruct (Hh account_id w2) as (holdings & w3 & ->). simpl.
    destruct (String.eqb side "buy"); simpl.
    - destruct (holds holdings ticker); simpl; [eauto|].
      destruct (String.eqb side "sell" && true); simpl; [eauto|].
      destruct (Hb account_id w3) as (balance & w4 & ->). simpl.
      destruct balance as [b|]; simpl; [|eauto].
      destruct (PrimFloat.ltb b _); simpl; eauto.
    - destruct (String.eqb side "sell" && negb (holds holdings ticker)); simpl; eauto. }
  split; [apply Hcheck|]. split.
  - rewrite (place_buy_orders_unfold self venue).
    destruct (Hcheck "buy" s) as (b & s1 & ->). destruct b; [|eauto].
    destruct (Hpb account_id ticker price order_type (world s1)) as (r & w2 & ->).
    destruct r; eauto.
  - rewrite (place_sell_orders_unfold self venue).
    destruct (Hcheck "sell" s) as (b & s1 & ->). destruct b; [|eauto].
    destruct (Hps account_id ticker price order_type (world s1)) as (r & w2 & ->).
    destruct r; eauto.
Qed.

(** X7: the side is compared as written.  For a side that is neither "buy"
    nor "sell" (a capitalised "BUY", say) the evaluator applies neither the
    position rule nor the funds check: once the first three checks pass and
    the holdings query returns, it answers true without a warning and
    without asking for the balance. *)
Theorem unknown_side_passes (side : string) (s : state W) (w2 w3 : W)
    (holdings : option (gmap string float)) :
  side <> "buy" -> side <> "sell" ->
  gates_pass self venue ticker s w2 ->
  get_stock_holdings venue account_id w2 = (Ret holdings, w3) ->
  check_preconditions self venue account_id ticker price side s
    = (Ret true, mkState w3 (trace s)).
Proof.
  intros Hb Hs Hg Hh.
  rewrite (check_after_gates self venue account_id ticker price side s w2 w3 holdings Hg Hh).
  apply String.eqb_neq in Hb, Hs. rewrite Hb, Hs. simpl.
  unfold funds_check. rewrite Hb. reflexivity.
Qed.

End Evaluator.

End BaseExtra.

(** * Further properties of the orchestrator *)

Module StrategyExtra.
Import Base Strategy StrategySpec.

(** ** Authentication lifecycle *)

Section Lifecycle.
Context {W : Type}.

(** X8: the account access check never raises, whatever the balance query
    does, and it answers true exactly when the account table is not empty
    and the balance of its first account is retrievable (the other accounts
    are not looked at). *)
Theorem verify_account_access_first (c : Client W) (s : state W) :
  exists b s',
    _verify_account_access c s = (Ret b, s') /\
    (b = true <->
     exists num first_account rest balance w',
       accounts (self c) = (num, first_account) :: rest /\
       get_account_balance (venue c) first_account (world s) = (Ret (Some balance), w')).
Proof.
  unfold _verify_account_access, try_, bind, call, ret.
  destruct (accounts (self c)) as [|[n first_account] rest]; simpl.
  - exists false, s. split; [reflexivity|]. split; [discriminate|].
    intros (? & ? & ? & ? & ? & H & _). discriminate.
  - destruct (get_account_balance (venue c) first_account (world s)) as [[[b|]|e] w'] eqn:Hb;
      simpl; eexists _, _; (split; [reflexivity|]).
    + split; [|reflexivity]. intros _. exists n, first_account, rest, b, w'.
      split; [reflexivity | exact Hb].
    + split; [discriminate|]. intros (? & ? & ? & ? & ? & [= <- <- <-] & H).
      congruence.
    + split; [discriminate|]. intros (? & ? & ? & ? & ? & [= <- <- <-] & H).
      congruence.
Qed.

Lemma succeeded_length (cs : list (Client W)) :
  forall i s, length (succeeded i cs s) <= length cs.
Proof.
  induction cs as [|c rest IH]; intros i s; simpl; [lia|].
  rewrite length_app. specialize (IH (S i) (after_attempt c s)).
  destruct (succeeds c s); simpl; lia.
Qed.

Lemma succeeded_all (cs : list (Client W)) :
  forall i s, length (succeeded i cs s) = length cs -> succeeded i cs s = seq i (length cs).
Proof.
  induction cs as [|c rest IH]; intros i s Hlen; simpl in *; [reflexivity|].
  rewrite length_app in Hlen.
  pose proof (succeeded_length rest (S i) (after_attempt c s)) as Hle.
  destruct (succeeds c s); simpl in *; [|lia].
  f_equal. apply IH. lia.
Qed.

(** The positions of the succeeded clients are listed in increasing order
    and lie among the positions of the clients. *)
Lemma succeeded_sorted (cs : list (Client W)) :
  forall i s,
    StronglySorted lt (succeeded i cs s) /\
    Forall (fun j => i <= j < i + length cs) (succeeded i cs s).
Proof.
  induction cs as [|c rest IH]; intros i s; simpl.
  - split; constructor.
  - destruct (IH (S i) (after_attempt c s)) as [Hs Hb].
    assert (Forall (fun j => i <= j < i + S (length rest))
                   (succeeded (S i) rest (after_attempt c s))) as Hb'.
    { eapply Forall_impl; [exact Hb|]. simpl. intros; lia. }
    destruct (succeeds c s); simpl; [|split; assumption].
    split.
    + constructor; [exact Hs|]. eapply Forall_impl; [exact Hb|]. simpl. intros; lia.
    + constructor; [lia | exact Hb'].
Qed.

Variable input : string -> W -> string * W.

(** X9: when every backend succeeds, [initialize] returns true with all
    positions authenticated, in declaration order, and the operator is not
    asked anything: the state is the one the authentication loop left. *)
Theorem initialize_all (app : TradingApp W) (s : state W) :
  initialized app = false ->
  clients app <> [] ->
  length (succeeded 0 (clients app) s) = length (clients app) ->
  exists app',
    initialize input app s = (Ret (true, app'), after_attempts (clients app) s) /\
    authenticated_clients app' = seq 0 (length (clients app)) /\
    initialized app' = true.
Proof.
  intros Hinit Hne Hall.
  destruct (initialize_unfold input app s Hinit) as (cs & s1 & Hlen & -> & Hrun).
  cbv zeta in Hrun. rewrite Hall, Nat.ltb_irrefl in Hrun.
  rewrite (succeeded_all _ _ _ Hall) in Hrun.
  destruct (clients app) as [|c rest] eqn:Hcs; [congruence|].
  simpl in Hrun. eexists. split; [exact Hrun|]. split; reflexivity.
Qed.

(** What a first call of [initialize] leaves: the clients after their
    attempts, the flag it returns and the positions that succeeded. *)
Lemma initialize_result (app app' : TradingApp W) (s s' : state W) (b : bool) :
  initialized app = false ->
  initialize input app s = (Ret (b, app'), s') ->
  exists cs,
    length cs = length (clients app) /\
    app' = mkApp cs b (succeeded 0 (clients app) s) /\
    (b = true -> succeeded 0 (clients app) s <> []).
Proof.
  intros Hinit Hrun.
  destruct (initialize_unfold input app s Hinit) as (cs & s1 & Hlen & -> & Hrun').
  cbv zeta in Hrun'. rewrite Hrun in Hrun'. clear Hrun.
  exists cs. split; [exact Hlen|].
  destruct (succeeded 0 (clients app) s) as [|j auth] eqn:Hok.
  - injection Hrun' as -> -> _. split; [reflexivity | discriminate].
  - destruct (Nat.ltb (length (j :: auth)) (length (clients app))).
    + destruct (input degraded_prompt (world (after_attempts (clients app) s)))
        as [response w2].
      destruct (negb (String.eqb (lower response) "yes"));
        injection Hrun' as -> -> _; split; (reflexivity || discriminate || congruence).
    + injection Hrun' as -> -> _. split; [reflexivity | congruence].
Qed.

(** X10: from an app that is not initialized, the value [initialize]
    returns is the value it leaves in the [initialized] flag; the clients
    are all kept; the authenticated list holds the positions of the backends
    that succeeded, in increasing order, whether the run goes on or not; and
    a true result comes with at least one authenticated backend. *)
Theorem initialize_outcome (app app' : TradingApp W) (s s' : state W) (b : bool) :
  initialized app = false ->
  initialize input app s = (Ret (b, app'), s') ->
  initialized app' = b /\
  length (clients app') = length (clients app) /\
  authenticated_clients app' = succeeded 0 (clients app) s /\
  StronglySorted lt (authenticated_clients app') /\
  Forall (fun j => j < length (clients app)) (authenticated_clients app') /\
  (b = true -> authenticated_clients app' <> []).
Proof.
  intros Hinit Hrun.
  destruct (initialize_result app app' s s' b Hinit Hrun) as (cs & Hlen & -> & Hne).
  destruct (succeeded_sorted (clients app) 0 s) as [Hsorted Hbound].
  assert (Forall (fun j => j < length (clients app)) (succeeded 0 (clients app) s)) as Hb.
  { eapply Forall_impl; [exact Hbound|]. simpl. intros; lia. }
  simpl. repeat split; assumption.
Qed.

(** X11: once [initialize] has returned true, a further call returns true
    again, from whatever state it is made, with the app as it was and
    without touching the outside world: no client is authenticated or
    verified again and the operator is not asked.  (What the call logs is
    not part of the statement.) *)
Theorem initialize_again (app app' : TradingApp W) (s s' : state W) :
  initialize input app s = (Ret (true, app'), s') ->
  forall again : state W,
    exists after,
      initialize input app' again = (Ret (true, app'), after) /\
      world after = world again.
Proof.
  intros Hrun again. exists again. split; [|reflexivity].
  assert (initialized app' = true) as Hflag.
  { destruct (initialized app) eqn:Hinit.
    - unfold initialize in Hrun. rewrite Hinit in Hrun. injection Hrun as <- _. exact Hinit.
    - destruct (initialize_result app app' s s' true Hinit Hrun) as (cs & _ & -> & _).
      reflexivity. }
  unfold initialize. rewrite Hflag. reflexivity.
Qed.

End Lifecycle.

(** ** Trade execution *)

Section Trades.
Context {W : Type}.
Variable client : Client W.
Variables action ticker : string.
Variable price : float.

Abbreviation step := (Strategy.step client action ticker price).
Abbreviation run := (Strategy.run client action ticker price).
Abbreviation gather := (Strategy.gather client action ticker price).
Abbreviation execute := (Strategy.execute_client_trades client action ticker price).
Abbreviation cap := (concur_trades (self client)).

Lemma success_count_le (results : list bool) :
  success_count results <= length results.
Proof.
  unfold success_count. induction results as [|b results IH]; simpl; [lia|].
  rewrite filter_cons. destruct (decide (b = true)); simpl; lia.
Qed.

(** X12: a pair that [execute_client_trades] returns is (successes,
    accounts) with the second the size of the account table and the first
    at most the second, under every schedule. *)
Theorem execute_client_trades_bounds (schedule : list choice) (s s' : state W) (k n : nat) :
  execute schedule s = Some (Ret (k, n), s') ->
  n = length (accounts (self client)) /\ k <= n.
Proof.
  unfold execute_client_trades.
  destruct (accounts (self client)) as [|a rest] eqn:Ha.
  - intros [= <- <- _]. simpl. lia.
  - destruct (cap <? 0)%Z eqn:Hcap; [discriminate|]. apply Z.ltb_ge in Hcap.
    destruct (gather (start client s) schedule) as [[[results|e] s1]|] eqn:Hg;
      try discriminate.
    intros [= <- <- _]. split; [reflexivity|].
    destruct (gather_prefix _ _ _ _ _ _ _ _ Hg) as (pre & post & sch & _ & Hrun & Hset & _).
    assert (results_of (tasks sch) = Some results) as Hres.
    { unfold settled in Hset. destruct (first_exception (tasks sch)); [discriminate|].
      destruct (results_of (tasks sch)); [congruence | discriminate]. }
    destruct (results_of_all _ _ Hres) as (Hlen & _ & _).
    destruct (run_inv client action ticker price pre _ _ (start_inv client s Hcap) Hrun)
      as (Hlen' & _ & _).
    pose proof (success_count_le results) as Hle.
    unfold values in Hlen'. rewrite length_map, Ha in Hlen'. simpl in *. lia.
Qed.

Lemma settled_pending (A : Type) (l : list A) :
  l <> [] -> settled (map (fun _ => Pending) l) = None.
Proof.
  destruct l as [|a l]; [congruence|]. intros _. unfold settled. simpl.
  assert (first_exception (map (fun _ : A => Pending) l) = None) as ->; [|reflexivity].
  induction l as [|x l IH]; [reflexivity | exact IH].
Qed.

Lemma lookup_pending (A : Type) (l : list A) (i : nat) (t : task) :
  map (fun _ => Pending) l !! i = Some t -> t = Pending.
Proof.
  rewrite list_lookup_fmap. destruct (l !! i); simpl; congruence.
Qed.

(** X13: a cap that is not positive yields no pair.  With a cap of zero and
    a non-empty account table no task can ever enter, so under no schedule
    does [execute_client_trades] return; with a negative cap it raises when
    it creates the semaphore, before any placement. *)
Theorem nonpositive_cap (schedule : list choice) (s : state W) :
  accounts (self client) <> [] ->
  (cap = 0%Z -> execute schedule s = None) /\
  ((cap < 0)%Z ->
   execute schedule s = Some (Raise (Exception "Semaphore initial value must be >= 0"), s)).
Proof.
  intros Hne. unfold execute_client_trades.
  destruct (accounts (self client)) as [|a rest] eqn:Ha; [congruence|]. split.
  - intros Hcap. rewrite Hcap. simpl.
    assert (gather (start client s) schedule = None) as ->; [|reflexivity].
    assert (settled (tasks (start client s)) = None) as Hs.
    { unfold start; simpl. apply settled_pending. rewrite Ha. discriminate. }
    simpl in Hs. destruct schedule as [|ch rest']; simpl; rewrite Hs; [reflexivity|].
    assert (step (start client s) ch = None) as ->; [|reflexivity].
    destruct ch as [i|i]; simpl; rewrite Hcap.
    + destruct (map _ _ !! i) as [[| |r]|]; reflexivity.
    + destruct (map _ _ !! i) as [t|] eqn:Ht; [|reflexivity].
      apply lookup_pending in Ht. subst t. reflexivity.
  - intros Hcap. apply Z.ltb_lt in Hcap. rewrite Hcap. reflexivity.
Qed.

(** X14: an exception of one placement call takes the whole result.  Once
    a task has finished with an exception, no continuation of the schedule
    makes [execute_client_trades] return a pair: whenever it returns, it
    raises. *)
Theorem placement_exception_aborts (pre post : list choice) (s s' : state W) (sch : sched)
    (r : outcome (nat * nat)) :
  accounts (self client) <> [] ->
  run (start client s) pre = Some sch ->
  is_Some (first_exception (tasks sch)) ->
  execute (pre ++ post) s = Some (r, s') ->
  exists e, r = Raise e.
Proof.
  intros Hne Hrun Hex. unfold execute_client_trades.
  destruct (accounts (self client)) as [|a rest] eqn:Ha; [congruence|].
  destruct (cap <? 0)%Z; [intros [= <- _]; eauto|].
  destruct (gather (start client s) (pre ++ post)) as [[[results|e] s1]|] eqn:Hg;
    [|intros [= <- _]; eauto|discriminate].
  exfalso.
  destruct (gather_prefix _ _ _ _ _ _ _ _ Hg) as (pre' & post' & sch' & Heq & Hrun' & Hset & _).
  assert (results_of (tasks sch') = Some results) as Hres.
  { unfold settled in Hset. destruct (first_exception (tasks sch')); [discriminate|].
    destruct (results_of (tasks sch')); [congruence | discriminate]. }
  destruct (results_of_all _ _ Hres) as (_ & Hnone & Hall).
  apply List.app_eq_app in Heq as [x [[-> ->]|[-> ->]]].
  - apply run_app in Hrun as (mid & Hmid & Hx).
    rewrite Hrun' in Hmid. injection Hmid as <-.
    destruct x as [|ch x]; simpl in Hx.
    + injection Hx as <-. rewrite Hnone in Hex. destruct Hex; discriminate.
    + destruct (step sch' ch) as [s1'|] eqn:Hstep; [|discriminate].
      destruct (step_tasks client action ticker price _ _ _ Hstep) as (i & t' & [Hi|Hi] & _);
        destruct (Hall _ _ Hi) as [b Hb]; discriminate.
  - apply run_app in Hrun' as (mid & Hmid & Hx).
    rewrite Hrun in Hmid. injection Hmid as <-.
    pose proof (run_keeps_exception client action ticker price x _ _ Hx Hex) as [e He].
    congruence.
Qed.

End Trades.

(** ** Balance aggregation *)


Section Balances.
Context {W : Type}.



Lemma gather_balances_trace (v : Venue W) (ids : list string) :
  forall s, trace (snd (gather_balances v ids s)) = trace s.
Proof.
  induction ids as [|a ids IH]; intros s; simpl; [reflexivity|].
  unfold bind, call, ret.
  destruct (get_account_balance v a (world s)) as [[b|e] w1]; simpl; [|reflexivity].
  specialize (IH (mkState w1 (trace s))).
  destruct (gather_balances v ids (mkState w1 (trace s))) as [[bs|e] s2]; exact IH.
Qed.

Lemma gather_balances_raises (v : Venue W) (ids : list string) (a : string) :
  a ∈ ids ->
  (forall w, exists e w', get_account_balance v a w = (Raise e, w')) ->
  forall s, exists e s', gather_balances v ids s = (Raise e, s').
Proof.
  intros Hin Hraise. induction ids as [|a' ids IH]; intros s; [inversion Hin|].
  simpl. unfold bind, call, ret.
  apply elem_of_cons in Hin as [<-|Hin].
  - destruct (Hraise (world s)) as (e & w' & ->). eauto.
  - destruct (get_account_balance v a' (world s)) as [[b|e] w1]; simpl; [|eauto].
    destruct (IH Hin (mkState w1 (trace s))) as (e & s' & ->). eauto.
Qed.

Lemma balances_loop_trace (cs : list (Client W)) :
  forall totals grand s, trace (snd (balances_loop cs totals grand s)) = trace s.
Proof.
  induction cs as [|c rest IH]; intros totals grand s; simpl; [reflexivity|].
  destruct (accounts (self c)) as [|a accts]; [apply IH|].
  unfold bind.
  pose proof (gather_balances_trace (venue c) (values (a :: accts)) s) as Hg.
  destruct (gather_balances (venue c) (values (a :: accts)) s) as [[balances|e] s1];
    simpl in Hg; [|exact Hg].
  rewrite IH. exact Hg.
Qed.

Lemma balances_loop_raises (cs : list (Client W)) (c : Client W) (a : string) :
  c ∈ cs -> a ∈ values (accounts (self c)) ->
  (forall w, exists e w', get_account_balance (venue c) a w = (Raise e, w')) ->
  forall totals grand s, exists e s', balances_loop cs totals grand s = (Raise e, s').
Proof.
  intros Hc Ha Hraise. induction cs as [|c' rest IH]; intros totals grand s; [inversion Hc|].
  simpl. destruct (accounts (self c')) as [|a' accts] eqn:Hacc.
  - apply elem_of_cons in Hc as [->|Hc]; [|apply IH; exact Hc].
    rewrite Hacc in Ha. inversion Ha.
  - unfold bind.
    destruct (gather_balances (venue c') (values (a' :: accts)) s) as [[balances|e] s1] eqn:Hg;
      [|eauto].
    apply elem_of_cons in Hc as [->|Hc]; [|apply IH; exact Hc].
    rewrite Hacc in Ha.
    destruct (gather_balances_raises _ _ _ Ha Hraise s) as (e & s' & He). congruence.
Qed.

(** X16: unlike a null balance, a balance query that raises takes the whole
    report.  If some account of some backend has a balance query that
    raises, [get_all_account_balances] raises: it returns no totals, not even
    those of the other backends, and logs no grand total. *)
Theorem balances_exception_aborts (app : TradingApp W) (c : Client W) (a : string)
    (s : state W) :
  c ∈ clients app ->
  a ∈ values (accounts (self c)) ->
  (forall w, exists e w', get_account_balance (venue c) a w = (Raise e, w')) ->
  exists e s', get_all_account_balances app s = (Raise e, s') /\ trace s' = trace s.
Proof.
  intros Hc Ha Hraise. unfold get_all_account_balances, bind.
  pose proof (balances_loop_trace (clients app) ∅ 0%float s) as Ht.
  destruct (balances_loop_raises _ _ _ Hc Ha Hraise ∅ 0%float s) as (e & s' & Hl).
  rewrite Hl in Ht |- *. eauto.
Qed.

End Balances.

End StrategyExtra.

(** * Properties of the Fennel client *)

Module FennelExtra.
Import Base BaseSpec BaseExtra.

Lemma account_table_lookup (account_ids : list string) (k : nat) :
  Fennel.account_table account_ids !! k
    = (fun account_id => ((Z.of_nat k + 1)%Z, account_id)) <$> account_ids !! k.
Proof. unfold Fennel.account_table. rewrite list_lookup_imap. reflexivity. Qed.

Lemma account_table_values (account_ids : list string) :
  map snd (Fennel.account_table account_ids) = account_ids.
Proof.
  apply list_eq. intros k.
  rewrite list_lookup_fmap, account_table_lookup.
  destruct (account_ids !! k); reflexivity.
Qed.

(** X17: the account table a listing is turned into numbers the accounts
    from 1 in listing order, and the base class reads it back: its values
    are the listed identifiers, the number found for an identifier is a
    position of that identifier in the listing counted from 1, and when the
    identifiers are distinct the identifier at position [k] has number
    [k + 1]. *)
Theorem account_table_numbers (account_ids : list string) :
  map snd (Fennel.account_table account_ids) = account_ids /\
  length (Fennel.account_table account_ids) = length account_ids /\
  (forall account_id num,
     get_account_number_from_id (Fennel.account_table account_ids) account_id = Some num ->
     exists k, num = (Z.of_nat k + 1)%Z /\ account_ids !! k = Some account_id) /\
  (NoDup account_ids ->
   forall k account_id,
     account_ids !! k = Some account_id ->
     get_account_number_from_id (Fennel.account_table account_ids) account_id
       = Some (Z.of_nat k + 1)%Z).
Proof.
  split; [apply account_table_values|]. split; [|split].
  - unfold Fennel.account_table. apply length_imap.
  - intros account_id num Hget.
    apply account_number_member, list_elem_of_lookup in Hget as [k Hk].
    rewrite account_table_lookup in Hk.
    destruct (account_ids !! k) as [a|] eqn:Ha; simpl in Hk; [|discriminate].
    injection Hk as <- <-. exists k. auto.
  - intros Hnd k account_id Hk. apply account_number_found.
    + rewrite account_table_values. exact Hnd.
    + apply list_elem_of_lookup. exists k. rewrite account_table_lookup, Hk. reflexivity.
Qed.

Section Client.
Context {W : Type}.
Variable fennel : Fennel.SDK W.

(** X18: [authenticate] of the Fennel client never raises.  It answers true
    exactly when the login and the account listing both return, and then
    the client is authenticated with the table of the listed accounts.  When
    the login returns and the listing raises it answers false but has
    already set [authenticated], so the client is left authenticated with
    the account table it had; when the login itself raises, nothing is
    changed. *)
Theorem fennel_authenticate (self : BaseClient) (w : W) :
  exists b self' w',
    Fennel.authenticate fennel self w = (Ret b, self', w') /\
    brokerage_name self' = brokerage_name self /\
    concur_trades self' = concur_trades self /\
    (b = true <->
     exists w1 account_ids,
       Fennel.login fennel w = (Ret tt, w1) /\
       Fennel.get_account_ids fennel w1 = (Ret account_ids, w')) /\
    (b = true ->
     authenticated self' = true /\
     exists account_ids, accounts self' = Fennel.account_table account_ids) /\
    (forall w1 e,
       Fennel.login fennel w = (Ret tt, w1) ->
       Fennel.get_account_ids fennel w1 = (Raise e, w') ->
       b = false /\ authenticated self' = true /\ accounts self' = accounts self) /\
    (forall e, Fennel.login fennel w = (Raise e, w') -> b = false /\ self' = self).
Proof.
  unfold Fennel.authenticate, Fennel.get_accounts.
  destruct (Fennel.login fennel w) as [[[]|e] w1] eqn:Hl.
  - destruct (Fennel.get_account_ids fennel w1) as [[ids|e] w2] eqn:Hg.
    + eexists _, _, _. split; [reflexivity|]. simpl.
      split; [reflexivity|]. split; [reflexivity|]. split; [|split; [|split]].
      * split; [|reflexivity]. intros _. exists w1, ids. auto.
      * intros _. split; [reflexivity|]. exists ids. reflexivity.
      * intros w1' e' [= <-] Hraise. congruence.
      * discriminate.
    + eexists _, _, _. split; [reflexivity|]. simpl.
      split; [reflexivity|]. split; [reflexivity|]. split; [|split; [|split]].
      * split; [discriminate|]. intros (w1' & ids & [= <-] & Hret). congruence.
      * discriminate.
      * intros _ _ _ _. auto.
      * discriminate.
  - eexists _, _, _. split; [reflexivity|].
    split; [reflexivity|]. split; [reflexivity|]. split; [|split; [|split]].
    + split; [discriminate|]. intros (w1' & ids & Hret & _). discriminate.
    + discriminate.
    + discriminate.
    + intros e' _. auto.
Qed.

(** X19: the raw placement of the Fennel client never raises: it answers
    true exactly when the call returns a response without the key "errors",
    and false on an error response or an exception.  The order it sends does
    not depend on the price it is given.  So over any venue with these raw
    primitives, a wrapper whose precondition check returned returns a
    boolean. *)
Theorem fennel_place_order (v : Venue W) (self : BaseClient)
    (account_id ticker side order_type : string) (price : float) (w : W) :
  (exists b w',
     Fennel._place_order fennel account_id ticker side price order_type w = (Ret b, w') /\
     (b = true <->
      exists response,
        Fennel.place_order fennel account_id ticker side order_type w = (Ret response, w') /\
        response !! "errors" = None)) /\
  (forall price',
     Fennel._place_order fennel account_id ticker side price' order_type w
       = Fennel._place_order fennel account_id ticker side price order_type w) /\
  (forall s b s1,
     check_preconditions self (with_fennel_orders v fennel) account_id ticker price "buy" s
       = (Ret b, s1) ->
     exists r s',
       place_buy_orders self (with_fennel_orders v fennel) account_id ticker price order_type s
         = (Ret r, s')) /\
  (forall s b s1,
     check_preconditions self (with_fennel_orders v fennel) account_id ticker price "sell" s
       = (Ret b, s1) ->
     exists r s',
       place_sell_orders self (with_fennel_orders v fennel) account_id ticker price order_type s
         = (Ret r, s')).
Proof.
  assert (forall side w, exists b w',
            Fennel._place_order fennel account_id ticker side price order_type w
              = (Ret b, w')) as Hret.
  { intros sd w0. unfold Fennel._place_order.
    destruct (Fennel.place_order fennel account_id ticker sd order_type w0) as [[resp|e] w'];
      [destruct (resp !! "errors")|]; eauto. }
  split; [|split; [|split]].
  - unfold Fennel._place_order.
    destruct (Fennel.place_order fennel account_id ticker side order_type w)
      as [[response|e] w'] eqn:Hp.
    + destruct (response !! "errors") as [err|] eqn:He; eexists _, _; (split; [reflexivity|]).
      * split; [discriminate|]. intros (r & [= <-] & H). congruence.
      * split; [|reflexivity]. intros _. exists response. auto.
    + eexists _, _. split; [reflexivity|]. split; [discriminate|].
      intros (r & H & _). discriminate.
  - reflexivity.
  - intros s b s1 Hc. rewrite place_buy_orders_unfold, Hc. destruct b; [|eauto].
    simpl. unfold Fennel._place_buy_orders.
    destruct (Hret "buy" (world s1)) as (r & w' & ->). destruct r; eauto.
  - intros s b s1 Hc. rewrite place_sell_orders_unfold, Hc. destruct b; [|eauto].
    simpl. unfold Fennel._place_sell_orders.
    destruct (Hret "sell" (world s1)) as (r & w' & ->). destruct r; eauto.
Qed.

End Client.

End FennelExtra.

(** * Properties of the operator's workflow *)

Module WorkflowExtra.
Import Base Strategy Workflow.

(** ** Characters and strings *)

Ltac by_cases_on_ascii c :=
  destruct c as [[] [] [] [] [] [] [] []]; reflexivity.

Lemma upper_ascii_idem (c : Ascii.ascii) : upper_ascii (upper_ascii c) = upper_ascii c.
Proof. by_cases_on_ascii c. Qed.

Lemma is_space_upper (c : Ascii.ascii) : is_space (upper_ascii c) = is_space c.
Proof. by_cases_on_ascii c. Qed.

Lemma comma_upper (c : Ascii.ascii) : Ascii.eqb (upper_ascii c) comma = Ascii.eqb c comma.
Proof. by_cases_on_ascii c. Qed.

Lemma upper_idem (s : string) : upper (upper s) = upper s.
Proof.
  induction s as [|c s IH]; simpl; [reflexivity|].
  rewrite upper_ascii_idem, IH. reflexivity.
Qed.

Lemma lstrip_upper (s : string) : lstrip (upper s) = upper (lstrip s).
Proof.
  induction s as [|c s IH]; simpl; [reflexivity|].
  rewrite is_space_upper. destruct (is_space c); [exact IH | reflexivity].
Qed.

Lemma rstrip_upper (s : string) : rstrip (upper s) = upper (rstrip s).
Proof.
  induction s as [|c s IH]; simpl; [reflexivity|].
  rewrite IH, is_space_upper.
  destruct (rstrip s); simpl; [destruct (is_space c)|]; reflexivity.
Qed.

Lemma rstrip_idem (s : string) : rstrip (rstrip s) = rstrip s.
Proof.
  induction s as [|c s IH]; simpl; [reflexivity|].
  destruct (rstrip s) as [|d r] eqn:E.
  - destruct (is_space c) eqn:Hc; simpl; [reflexivity|]. rewrite Hc. reflexivity.
  - simpl. simpl in IH. rewrite IH. reflexivity.
Qed.

Lemma lstrip_trimmed (s : string) : trimmed_left (lstrip s).
Proof.
  induction s as [|c s IH]; simpl; [exact I|].
  destruct (is_space c) eqn:Hc; [exact IH | exact Hc].
Qed.

Lemma lstrip_id (s : string) : trimmed_left s -> lstrip s = s.
Proof. destruct s as [|c s]; simpl; [reflexivity|]. intros ->. reflexivity. Qed.

Lemma rstrip_trimmed (s : string) : trimmed_left s -> trimmed_left (rstrip s).
Proof.
  destruct s as [|c s]; simpl; [auto|]. intros Hc.
  destruct (rstrip s); [rewrite Hc|]; exact Hc.
Qed.

Lemma strip_idem (s : string) : strip (strip s) = strip s.
Proof.
  unfold strip.
  rewrite (lstrip_id (rstrip (lstrip s))) by (apply rstrip_trimmed, lstrip_trimmed).
  apply rstrip_idem.
Qed.

Lemma strip_upper (s : string) : strip (upper s) = upper (strip s).
Proof. unfold strip. rewrite lstrip_upper, rstrip_upper. reflexivity. Qed.

Lemma occurrences_upper (s : string) : occurrences comma (upper s) = occurrences comma s.
Proof.
  induction s as [|c s IH]; simpl; [reflexivity|]. rewrite comma_upper, IH. reflexivity.
Qed.

Lemma occurrences_lstrip (c : Ascii.ascii) (s : string) :
  occurrences c (lstrip s) <= occurrences c s.
Proof.
  induction s as [|d s IH]; simpl; [lia|].
  destruct (is_space d); simpl; lia.
Qed.

Lemma occurrences_rstrip (c : Ascii.ascii) (s : string) :
  occurrences c (rstrip s) <= occurrences c s.
Proof.
  induction s as [|d s IH]; simpl; [lia|].
  destruct (rstrip s) as [|e r]; simpl in *; [destruct (is_space d); simpl|]; lia.
Qed.

Lemma join_comma_head (c : Ascii.ascii) (word : string) (words : list string) :
  join_comma (String c word :: words) = String c (join_comma (word :: words)).
Proof. destruct words; reflexivity. Qed.

(** The segments of a split contain no comma, there is one more of them
    than commas, and joined by commas they give the string back. *)
Lemma split_comma_spec (s : string) :
  length (split_comma s) = S (occurrences comma s) /\
  Forall (fun segment => occurrences comma segment = 0) (split_comma s) /\
  join_comma (split_comma s) = s.
Proof.
  induction s as [|c s (Hlen & Hall & Hjoin)]; simpl.
  - split; [reflexivity|]. split; [repeat constructor | reflexivity].
  - destruct (Ascii.eqb c comma) eqn:E.
    + apply Ascii.eqb_eq in E. subst c. split; [simpl; lia|]. split.
      * constructor; [reflexivity | exact Hall].
      * destruct (split_comma s) as [|w ws] eqn:Hs; [discriminate|].
        simpl. simpl in Hjoin. rewrite Hjoin. reflexivity.
    + destruct (split_comma s) as [|w ws] eqn:Hs; [discriminate|].
      split; [simpl in *; lia|]. split.
      * apply Forall_cons in Hall as [Hw Hws].
        constructor; [simpl; rewrite E, Hw; reflexivity | exact Hws].
      * rewrite join_comma_head, Hjoin. reflexivity.
Qed.

Section Operator.
Context {W : Type}.
Variable input : string -> W -> string * W.

(** X20: the tickers of a comma-separated answer of ASCII characters.  In
    the list modes (3 and 4) [get_tickers] cuts the answer at its commas: the
    segments, joined by commas, are the answer; there is one ticker per
    segment, so one more ticker than commas and never none, and a blank
    segment gives an empty ticker.  Each ticker is in normal form: it has no
    comma, and stripping or upper-casing it again changes nothing.  In the
    other modes the whole answer is one ticker, commas included. *)
Theorem get_tickers_segments (mode : Z) (s : state W) (answer : string) (w' : W) :
  Forall (fun c => is_ascii c = true) (chars answer) ->
  (mode = 3%Z \/ mode = 4%Z ->
     input "Enter a comma-separated list of tickers (e.g., AAPL,TSLA,GOOG): " (world s)
       = (answer, w') ->
     exists segments,
       join_comma segments = answer /\
       get_tickers input mode s
         = (Ret (map (fun segment => upper (strip segment)) segments), mkState w' (trace s)) /\
       length segments = S (occurrences comma answer) /\
       Forall (fun segment =>
                 occurrences comma (upper (strip segment)) = 0 /\
                 strip (upper (strip segment)) = upper (strip segment) /\
                 upper (upper (strip segment)) = upper (strip segment)) segments) /\
  (mode <> 3%Z -> mode <> 4%Z ->
     input "Enter a single ticker: " (world s) = (answer, w') ->
     get_tickers input mode s = (Ret [upper (strip answer)], mkState w' (trace s))).
Proof.
  intros _. split.
  - intros Hmode Hin. exists (split_comma answer).
    destruct (split_comma_spec answer) as (Hlen & Hall & Hjoin).
    split; [exact Hjoin|]. split; [|split; [exact Hlen|]].
    + unfold get_tickers, bind, ask, ret.
      destruct Hmode as [-> | ->]; simpl; rewrite Hin; reflexivity.
    + eapply Forall_impl; [exact Hall|]. simpl. intros segment Hseg.
      split; [|split].
      * rewrite occurrences_upper. unfold strip.
        pose proof (occurrences_rstrip comma (lstrip segment)).
        pose proof (occurrences_lstrip comma segment). lia.
      * rewrite strip_upper, strip_idem. reflexivity.
      * apply upper_idem.
  - intros H3 H4 Hin. unfold get_tickers, bind, ask, ret.
    apply Z.eqb_neq in H3, H4. rewrite H3, H4. simpl. rewrite Hin. reflexivity.
Qed.

(** X21: [get_trade_action] returns the first of the operator's answers
    that, in lower case, is "buy" or "sell", in lower case; answers that are
    neither are asked again.  So an action it returns is always one of the
    two words, and it returns as soon as the number of prompts allowed
    covers the first valid answer. *)
Theorem get_trade_action_first (fuel : nat) (s : state W) :
  fst (get_trade_action input fuel s)
    = Ret (List.find is_action
             (map lower (replies input "Do you want to 'buy' or 'sell'?: " fuel s))) /\
  (forall action s',
     get_trade_action input fuel s = (Ret (Some action), s') ->
     action = "buy" \/ action = "sell").
Proof.
  assert (forall fuel s,
            fst (get_trade_action input fuel s)
            = Ret (List.find is_action
                     (map lower (replies input "Do you want to 'buy' or 'sell'?: " fuel s))))
    as Hfind.
  { clear. intros fuel. induction fuel as [|fuel IH]; intros s; simpl; [reflexivity|].
    unfold bind, ask, ret.
    destruct (input "Do you want to 'buy' or 'sell'?: " (world s)) as [answer w'].
    simpl. unfold is_action at 1.
    destruct (String.eqb (lower answer) "buy" || String.eqb (lower answer) "sell");
      [reflexivity | apply IH]. }
  split; [apply Hfind|].
  intros action s' Hrun. specialize (Hfind fuel s). rewrite Hrun in Hfind. simpl in Hfind.
  injection Hfind as Hfind. symmetry in Hfind. apply List.find_some in Hfind as [_ Hact].
  unfold is_action in Hact. apply orb_true_iff in Hact as [H|H];
    apply String.eqb_eq in H; auto.
Qed.

Variable get_stock_price : Client W -> string -> W -> outcome (option float) * W.
Variable format_price : float -> string.

Lemma confirm_loop_first (ticker : string) (price : float) (fuel : nat) :
  forall s,
    fst (confirm_loop input format_price fuel ticker price s)
      = Ret (match List.find is_verdict
                     (map lower (replies input (confirm_prompt format_price ticker price) fuel s))
             with
             | Some verdict =>
                 Some (if String.eqb verdict "yes" then Some (ticker, price) else None)
             | None => None
             end).
Proof.
  induction fuel as [|fuel IH]; intros s; simpl; [reflexivity|].
  unfold bind, ask, ret.
  destruct (input (confirm_prompt format_price ticker price) (world s)) as [answer w'].
  simpl. unfold is_verdict at 1.
  destruct (String.eqb (lower answer) "yes") eqn:Hyes; simpl; [rewrite Hyes; reflexivity|].
  destruct (String.eqb (lower answer) "no") eqn:Hno; simpl;
    [rewrite Hyes; reflexivity | apply IH].
Qed.

(** X22: [confirm_ticker].  For a ticker that is not tradable it answers
    with no trade, without fetching a price or asking the operator.  For a
    tradable ticker whose price is [None] it raises, because the price cannot
    be formatted.  Otherwise the first answer that, in lower case, is "yes"
    or "no" decides: "yes" gives the ticker with the price that was quoted,
    "no" gives no trade.  A trade it returns is always for the ticker asked
    about, tradable, at the price the client quoted. *)
Theorem confirm_ticker_cases (fuel : nat) (client : Client W) (ticker : string) (s : state W) :
  (forall w1,
     is_tradable (venue client) ticker (world s) = (Ret false, w1) ->
     confirm_ticker input get_stock_price format_price fuel client ticker s
       = (Ret (Some None), mkState w1 (trace s))) /\
  (forall w1 w2,
     is_tradable (venue client) ticker (world s) = (Ret true, w1) ->
     get_stock_price client ticker w1 = (Ret None, w2) ->
     exists e,
       confirm_ticker input get_stock_price format_price fuel client ticker s
         = (Raise e, mkState w2 (trace s))) /\
  (forall w1 w2 price,
     is_tradable (venue client) ticker (world s) = (Ret true, w1) ->
     get_stock_price client ticker w1 = (Ret (Some price), w2) ->
     fst (confirm_ticker input get_stock_price format_price fuel client ticker s)
       = Ret (match List.find is_verdict
                      (map lower (replies input (confirm_prompt format_price ticker price) fuel
                                    (mkState w2 (trace s))))
              with
              | Some verdict =>
                  Some (if String.eqb verdict "yes" then Some (ticker, price) else None)
              | None => None
              end)) /\
  (forall ticker' price' s',
     confirm_ticker input get_stock_price format_price fuel client ticker s
       = (Ret (Some (Some (ticker', price'))), s') ->
     ticker' = ticker /\
     exists w1 w2,
       is_tradable (venue client) ticker (world s) = (Ret true, w1) /\
       get_stock_price client ticker w1 = (Ret (Some price'), w2)).
Proof.
  unfold confirm_ticker, bind, call, ret.
  split; [|split; [|split]].
  - intros w1 ->. reflexivity.
  - intros w1 w2 -> Hp. simpl. rewrite Hp. simpl. eexists. reflexivity.
  - intros w1 w2 price -> Hp. simpl. rewrite Hp. simpl. apply confirm_loop_first.
  - intros ticker' price' s'.
    destruct (is_tradable (venue client) ticker (world s)) as [[[|]|e] w1]; simpl;
      try discriminate.
    destruct (get_stock_price client ticker w1) as [[[price|]|e] w2] eqn:Hp; simpl;
      try discriminate.
    intros Hrun. pose proof (confirm_loop_first ticker price fuel (mkState w2 (trace s))) as Hl.
    rewrite Hrun in Hl. simpl in Hl. injection Hl as Hl.
    destruct (List.find is_verdict _) as [verdict|]; [|discriminate].
    destruct (String.eqb verdict "yes"); [|discriminate].
    injection Hl as -> ->. split; [reflexivity|].
    exists w1, w2. split; [reflexivity | exact Hp].
Qed.

End Operator.

End WorkflowExtra.

(** * Properties of the batch of trades *)

Module BatchExtra.
Import Base Strategy Workflow Batch StrategySpec StrategyExtra.

Section Batch.
Context {W : Type}.
Variable input : string -> W -> string * W.
Variable get_stock_price : Client W -> string -> W -> outcome (option float) * W.
Variable format_price : float -> string.

Lemma get_trade_action_valid (fuel : nat) :
  forall s action s',
    get_trade_action input fuel s = (Ret (Some action), s') ->
    action = "buy" \/ action = "sell".
Proof.
  induction fuel as [|fuel IH]; intros s action s'; simpl; [discriminate|].
  unfold bind, ask, ret.
  destruct (input "Do you want to 'buy' or 'sell'?: " (world s)) as [answer w'].
  destruct (String.eqb (lower answer) "buy") eqn:Hb; simpl.
  - intros [= <- _]. left. apply String.eqb_eq. exact Hb.
  - destruct (String.eqb (lower answer) "sell") eqn:Hs; simpl; [|apply IH].
    intros [= <- _]. right. apply String.eqb_eq. exact Hs.
Qed.

Lemma confirm_loop_ticker (ticker : string) (price : float) (fuel : nat) :
  forall s ticker' price' s',
    confirm_loop input format_price fuel ticker price s
      = (Ret (Some (Some (ticker', price'))), s') ->
    ticker' = ticker.
Proof.
  induction fuel as [|fuel IH]; intros s ticker' price' s'; simpl; [discriminate|].
  unfold bind, ask, ret.
  destruct (input (confirm_prompt format_price ticker price) (world s)) as [answer w'].
  destruct (String.eqb (lower answer) "yes"); simpl; [intros [= <- _ _]; reflexivity|].
  destruct (String.eqb (lower answer) "no"); simpl; [discriminate | apply IH].
Qed.

Lemma confirm_ticker_ticker (fuel : nat) (client : Client W) (ticker : string) (s : state W)
    (ticker' : string) (price' : float) (s' : state W) :
  confirm_ticker input get_stock_price format_price fuel client ticker s
    = (Ret (Some (Some (ticker', price'))), s') ->
  ticker' = ticker.
Proof.
  unfold confirm_ticker, bind, call, ret.
  destruct (is_tradable (venue client) ticker (world s)) as [[[|]|e] w1]; simpl;
    try discriminate.
  destruct (get_stock_price client ticker w1) as [[[price|]|e] w2]; simpl; try discriminate.
  apply confirm_loop_ticker.
Qed.

(** X23: the trades the operator confirms.  When the loop over the tickers
    returns, the confirmed trades are, in the order of the tickers, trades
    of some of those tickers, and each carries the action "buy" or "sell":
    [execute_client_trades] is never started with another action.  With
    tickers to ask about and no selected client, the loop raises instead. *)
Theorem confirm_trades_valid (fuel : nat) (selected_clients : list (Client W))
    (tickers : list string) :
  (forall confirmed_trades s confirmed s',
     confirm_trades input get_stock_price format_price fuel selected_clients tickers
       confirmed_trades s = (Ret (Some confirmed), s') ->
     exists added,
       confirmed = confirmed_trades ++ added /\
       sublist (map (fun trade => fst (fst trade)) added) tickers /\
       Forall (fun trade => snd trade = "buy" \/ snd trade = "sell") added) /\
  (selected_clients = [] -> tickers <> [] ->
   forall confirmed_trades s,
     exists e,
       confirm_trades input get_stock_price format_price fuel selected_clients tickers
         confirmed_trades s = (Raise e, s)).
Proof.
  split.
  - induction tickers as [|ticker rest IH]; intros acc s confirmed s'; simpl.
    + intros [= <- _]. exists []. rewrite app_nil_r.
      split; [reflexivity|]. split; constructor.
    + destruct selected_clients as [|first others]; [discriminate|].
      unfold bind at 1.
      destruct (confirm_ticker input get_stock_price format_price fuel first ticker s)
        as [[[[[ticker' price']|]|]|e] s1] eqn:Hc; try discriminate.
      * unfold bind at 1.
        destruct (get_trade_action input fuel s1) as [[[action|]|e] s2] eqn:Ha;
          try discriminate.
        intros Hrest. destruct (IH _ _ _ _ Hrest) as (added & -> & Hsub & Hall).
        exists ((ticker', price', action) :: added).
        rewrite <- app_assoc. split; [reflexivity|]. split.
        -- simpl. rewrite (confirm_ticker_ticker _ _ _ _ _ _ _ Hc).
           apply sublist_skip. exact Hsub.
        -- constructor; [|exact Hall]. simpl.
           eapply get_trade_action_valid. exact Ha.
      * intros Hrest. destruct (IH _ _ _ _ Hrest) as (added & -> & Hsub & Hall).
        exists added. split; [reflexivity|]. split; [|exact Hall].
        apply sublist_cons. exact Hsub.
  - intros -> Hne acc s. destruct tickers as [|ticker rest]; [congruence|].
    simpl. eexists. reflexivity.
Qed.

(** X24: nothing is dispatched without the final "yes".  When no trade was
    confirmed, [execute_trades] stops before the final question; when the
    operator answers it with anything but "yes" (in any letter case), it
    stops after it.  In both cases it ends, under every schedule, in the
    state the questions left: no invocation of [execute_client_trades] is
    started. *)
Theorem execute_trades_not_dispatched (fuel : nat) (schedule : list (nat * choice))
    (selected_clients : list (Client W)) (tickers : list string) (s s1 : state W) :
  (confirm_trades input get_stock_price format_price fuel selected_clients tickers [] s
     = (Ret (Some []), s1) ->
   execute_trades input get_stock_price format_price fuel schedule selected_clients tickers s
     = Some (Ret NothingConfirmed, s1)) /\
  (forall confirmed answer w2,
     confirm_trades input get_stock_price format_price fuel selected_clients tickers [] s
       = (Ret (Some confirmed), s1) ->
     confirmed <> [] ->
     input final_prompt (world s1) = (answer, w2) ->
     lower answer <> "yes" ->
     execute_trades input get_stock_price format_price fuel schedule selected_clients tickers s
       = Some (Ret Cancelled, mkState w2 (trace s1))).
Proof.
  unfold execute_trades. split.
  - intros ->. reflexivity.
  - intros confirmed answer w2 -> Hne -> Hno.
    destruct confirmed as [|trade trades]; [congruence|].
    apply String.eqb_neq in Hno. rewrite Hno. reflexivity.
Qed.

(** ** The pool of invocations *)

Lemma launch_ok (jb : job W) : slot_ok jb (launch jb).
Proof.
  unfold launch, slot_ok.
  destruct (accounts (self (job_client jb))) as [|a rest] eqn:Ha; [simpl; lia|].
  destruct (concur_trades (self (job_client jb)) <? 0)%Z eqn:Hc; [exact I|].
  apply Z.ltb_ge in Hc. rewrite length_map, in_flight_pending.
  repeat split; [exact Hc | lia].
Qed.

Lemma launch_all_ok (jobs : list (job W)) : Forall2 slot_ok jobs (map launch jobs).
Proof.
  induction jobs as [|jb jobs IH]; simpl; constructor; [apply launch_ok | exact IH].
Qed.

Section Pool.
Variable jobs : list (job W).

Lemma pool_step_ok (p p' : pool W) (ch : nat * choice) :
  Forall2 slot_ok jobs (slots p) -> pool_step jobs p ch = Some p' ->
  Forall2 slot_ok jobs (slots p').
Proof.
  intros Hok. unfold pool_step.
  destruct (jobs !! fst ch) as [jb|] eqn:Hj; [|discriminate].
  destruct (slots p !! fst ch) as [[permits ts|r]|] eqn:Hs; try discriminate.
  destruct (Strategy.step (job_client jb) (job_action jb) (job_ticker jb) (job_price jb)
              (mkSched permits ts (pool_st p)) (snd ch)) as [sch'|] eqn:Hstep;
    [|discriminate].
  intros [= <-]. simpl.
  pose proof (Forall2_lookup_lr _ _ _ _ _ _ Hok Hj Hs) as Hslot. simpl in Hslot.
  assert (sem_inv (job_client jb) sch') as (Hlen & Hpos & Hsum).
  { eapply step_inv; [|exact Hstep]. exact Hslot. }
  rewrite <- (list_insert_id jobs (fst ch) jb Hj).
  apply Forall2_insert; [exact Hok|].
  unfold settled.
  destruct (first_exception (tasks sch')) as [e|]; [exact I|].
  destruct (results_of (tasks sch')) as [results|] eqn:Hres.
  - destruct (results_of_all _ _ Hres) as (Hlr & _ & _).
    simpl. split; [reflexivity|].
    pose proof (success_count_le results) as Hle.
    unfold values in Hlen. rewrite length_map in Hlen. lia.
  - simpl. repeat split; assumption.
Qed.

Lemma pool_run_ok (schedule : list (nat * choice)) :
  forall p p',
    Forall2 slot_ok jobs (slots p) -> pool_run jobs p schedule = Some p' ->
    Forall2 slot_ok jobs (slots p').
Proof.
  induction schedule as [|ch rest IH]; intros p p' Hok Hrun; simpl in Hrun.
  - injection Hrun as <-. exact Hok.
  - destruct (pool_step jobs p ch) as [p1|] eqn:Hstep; [|discriminate].
    eapply IH; [|exact Hrun]. eapply pool_step_ok; eassumption.
Qed.

Lemma pool_gather_prefix (schedule : list (nat * choice)) :
  forall p r s',
    pool_gather jobs p schedule = Some (r, s') ->
    exists pre post p',
      schedule = pre ++ post /\ pool_run jobs p pre = Some p' /\
      pool_settled (slots p') = Some r /\ pool_st p' = s'.
Proof.
  induction schedule as [|ch rest IH]; intros p r s' Hg; simpl in Hg.
  - destruct (pool_settled (slots p)) as [r0|] eqn:Hs; [|discriminate].
    injection Hg as <- <-. exists [], [], p. auto.
  - destruct (pool_settled (slots p)) as [r0|] eqn:Hs.
    + injection Hg as <- <-. exists [], (ch :: rest), p. auto.
    + destruct (pool_step jobs p ch) as [p1|] eqn:Hstep; [|discriminate].
      destruct (IH _ _ _ Hg) as (pre & post & p' & -> & Hrun & Hset & Hst).
      exists (ch :: pre), post, p'. simpl. rewrite Hstep. auto.
Qed.

End Pool.

Lemma pool_results_totals (jobs : list (job W)) (l : list slot) :
  Forall2 slot_ok jobs l ->
  forall results, pool_results l = Some results ->
    total_attempted results = accounts_of jobs /\
    total_successful results <= total_attempted results.
Proof.
  induction 1 as [|jb sl jobs l Hsl Hrest IH]; intros results Hres; simpl in Hres.
  - injection Hres as <-. simpl. lia.
  - destruct sl as [permits ts|[[k n]|e]]; try discriminate.
    destruct (pool_results l) as [others|]; [|discriminate].
    injection Hres as <-. destruct (IH others eq_refl) as [Hatt Hsucc].
    simpl in Hsl. destruct Hsl as [-> Hle]. simpl. lia.
Qed.

Lemma accounts_of_jobs (selected_clients : list (Client W))
    (confirmed : list (string * float * string)) :
  accounts_of (jobs_of selected_clients confirmed)
    = length confirmed * total_accnts selected_clients.
Proof.
  assert (forall ticker price action,
            accounts_of (map (fun client => mkJob client action ticker price) selected_clients)
            = total_accnts selected_clients) as Hone.
  { intros ticker price action. induction selected_clients as [|c cs IH]; simpl; [reflexivity|].
    rewrite IH. reflexivity. }
  assert (forall l1 l2 : list (job W), accounts_of (l1 ++ l2) = accounts_of l1 + accounts_of l2)
    as Happ.
  { intros l1 l2. induction l1 as [|jb l1 IH]; simpl; [reflexivity|]. rewrite IH. lia. }
  induction confirmed as [|[[ticker price] action] confirmed IH]; simpl; [reflexivity|].
  rewrite Happ, Hone, IH. reflexivity.
Qed.

(** X25: the totals of a batch.  When [execute_trades] reports totals, the
    number of trades attempted is the number of confirmed trades times the
    number of accounts of all selected clients (every confirmed trade goes to
    every account of every selected client), and the number of successful
    trades is at most that, under every schedule. *)
Theorem execute_trades_totals (fuel : nat) (schedule : list (nat * choice))
    (selected_clients : list (Client W)) (tickers : list string) (s s' : state W)
    (k n : nat) :
  execute_trades input get_stock_price format_price fuel schedule selected_clients tickers s
    = Some (Ret (Executed k n), s') ->
  k <= n /\
  exists confirmed s1,
    confirm_trades input get_stock_price format_price fuel selected_clients tickers [] s
      = (Ret (Some confirmed), s1) /\
    n = length confirmed * total_accnts selected_clients.
Proof.
  unfold execute_trades.
  destruct (confirm_trades input get_stock_price format_price fuel selected_clients tickers [] s)
    as [[[[|trade trades]|]|e] s1] eqn:Hc; try discriminate.
  destruct (input final_prompt (world s1)) as [answer w2].
  destruct (String.eqb (lower answer) "yes"); [|discriminate].
  set (jobs := jobs_of selected_clients (trade :: trades)).
  destruct (pool_gather jobs (launch_all jobs (mkState w2 (trace s1))) schedule)
    as [[[results|e] s3]|] eqn:Hg; try discriminate.
  intros [= <- <- _].
  destruct (pool_gather_prefix jobs _ _ _ _ Hg) as (pre & post & p' & _ & Hrun & Hset & _).
  assert (Forall2 slot_ok jobs (slots p')) as Hok.
  { eapply pool_run_ok; [|exact Hrun]. apply launch_all_ok. }
  assert (pool_results (slots p') = Some results) as Hres.
  { unfold pool_settled in Hset. destruct (pool_exception (slots p')); [discriminate|].
    destruct (pool_results (slots p')); [congruence | discriminate]. }
  destruct (pool_results_totals jobs _ Hok results Hres) as [Hatt Hsucc].
  split; [exact Hsucc|]. exists (trade :: trades), s1. split; [reflexivity|].
  rewrite Hatt. apply accounts_of_jobs.
Qed.

Lemma first_exception_pending (A : Type) (l : list A) :
  first_exception (map (fun _ => Pending) l) = None.
Proof. induction l as [|a l IH]; [reflexivity | exact IH]. Qed.

Lemma enter_first_step (jobs : list (job W)) (pre post : list (job W)) (jb : job W)
    (later : list slot) (s : state W) :
  jobs = pre ++ jb :: post ->
  accounts (self (job_client jb)) <> [] ->
  (0 < concur_trades (self (job_client jb)))%Z ->
  pool_step jobs (mkPool (map entered pre ++ launch jb :: later) s) (length pre, Enter 0)
    = Some (mkPool (map entered (pre ++ [jb]) ++ later) s).
Proof.
  intros -> Hacc Hcap. unfold pool_step. simpl.
  rewrite list_lookup_middle by reflexivity.
  rewrite list_lookup_middle by (rewrite length_map; reflexivity).
  unfold launch.
  destruct (accounts (self (job_client jb))) as [|a rest] eqn:Ha; [congruence|].
  assert ((concur_trades (self (job_client jb)) <? 0)%Z = false) as -> by (apply Z.ltb_ge; lia).
  simpl.
  assert ((0 <? concur_trades (self (job_client jb)))%Z = true) as -> by (apply Z.ltb_lt; lia).
  simpl. unfold settled. simpl. rewrite first_exception_pending. simpl.
  f_equal. f_equal.
  rewrite insert_app_r_alt by (rewrite length_map; lia).
  rewrite length_map, Nat.sub_diag. simpl.
  rewrite map_app, <- app_assoc. simpl.
  unfold entered. rewrite Ha. reflexivity.
Qed.

Lemma enter_from_run (jobs : list (job W)) (s : state W) (post : list (job W)) :
  forall pre,
    jobs = pre ++ post ->
    Forall (fun jb => accounts (self (job_client jb)) <> [] /\
                      (0 < concur_trades (self (job_client jb)))%Z) post ->
    pool_run jobs (mkPool (map entered pre ++ map launch post) s) (enter_from (length pre) post)
      = Some (mkPool (map entered jobs) s).
Proof.
  induction post as [|jb post IH]; intros pre Hjobs Hgood; simpl.
  - rewrite Hjobs, !app_nil_r. reflexivity.
  - apply Forall_cons in Hgood as [[Hacc Hcap] Hgood].
    rewrite (enter_first_step jobs pre post jb (map launch post) s Hjobs Hacc Hcap).
    specialize (IH (pre ++ [jb])). rewrite length_app in IH. simpl in IH.
    rewrite Nat.add_1_r in IH. apply IH; [|exact Hgood].
    rewrite <- app_assoc. exact Hjobs.
Qed.

Lemma entered_in_flight (jobs : list (job W)) :
  Forall (fun jb => accounts (self (job_client jb)) <> [] /\
                    (0 < concur_trades (self (job_client jb)))%Z) jobs ->
  foldr (fun sl n => slot_in_flight sl + n) 0 (map entered jobs) = length jobs.
Proof.
  induction 1 as [|jb jobs [Hacc _] _ IH]; [reflexivity|].
  cbn [map foldr length]. rewrite IH.
  assert (slot_in_flight (entered jb) = 1) as ->; [|reflexivity].
  unfold entered.
  destruct (accounts (self (job_client jb))) as [|a rest]; [congruence|].
  change (in_flight (InFlight :: map (fun _ : string => Pending) (values rest)) = 1).
  rewrite in_flight_cons, in_flight_pending. reflexivity.
Qed.

(** X26: the cap bounds one invocation, not one backend.  In every state
    the event loop can reach, each invocation of [execute_client_trades] has
    at most its client's [concur_trades] placement calls in flight; but the
    invocations of a batch do not share a semaphore, and the schedule that
    lets the first task of each invocation enter is one the event loop can
    follow: it puts as many placement calls in flight as there are
    invocations, also when all of them are for the same backend. *)
Theorem cap_is_per_invocation (jobs : list (job W)) (s : state W) :
  (forall schedule p,
     pool_run jobs (launch_all jobs s) schedule = Some p ->
     Forall2 (fun jb sl =>
                (Z.of_nat (slot_in_flight sl)
                 <= Z.max 0 (concur_trades (self (job_client jb))))%Z)
             jobs (slots p)) /\
  (Forall (fun jb => accounts (self (job_client jb)) <> [] /\
                     (0 < concur_trades (self (job_client jb)))%Z) jobs ->
   exists p,
     pool_run jobs (launch_all jobs s) (enter_from 0 jobs) = Some p /\
     pool_in_flight p = length jobs /\
     pool_st p = s).
Proof.
  split.
  - intros schedule p Hrun.
    assert (Forall2 slot_ok jobs (slots p)) as Hok.
    { eapply pool_run_ok; [|exact Hrun]. apply launch_all_ok. }
    eapply Forall2_impl; [exact Hok|]. simpl.
    intros jb [permits ts|r] Hslot; simpl in *; lia.
  - intros Hgood. exists (mkPool (map entered jobs) s).
    split; [|split; [|reflexivity]].
    + apply (enter_from_run jobs s jobs []); [reflexivity | exact Hgood].
    + unfold pool_in_flight. simpl. apply entered_in_flight. exact Hgood.
Qed.

End Batch.

End BatchExtra.

(** * The concurrency cap of one invocation *)

Module BatchSpec.
Import Base Strategy StrategySpec Batch BatchExtra.

Section Cap.
Context {W : Type}.
Variable client : Client W.
Variables action ticker : string.
Variable price : float.

(** C6: the semaphore bounds the placement calls of one invocation.  In
    every state the event loop can reach while an invocation of
    [execute_client_trades] awaits its tasks, the number of its placement
    calls in flight is at most the client's [concur_trades]; and this holds
    of the invocation whether it runs alone or as one of the invocations
    that [execute_trades] gathers, whatever the others are and do. *)
Theorem semaphore_bounds_in_flight :
  (0 <= concur_trades (self client))%Z ->
  (forall (s0 : state W) (schedule : list choice) (sch : Strategy.sched),
     Strategy.run client action ticker price (start client s0) schedule = Some sch ->
     (Z.of_nat (in_flight (tasks sch)) <= concur_trades (self client))%Z) /\
  (forall (jobs : list (job W)) (s : state W) (schedule : list (nat * choice)) (p : pool W)
          (k : nat) (sl : slot),
     pool_run jobs (launch_all jobs s) schedule = Some p ->
     jobs !! k = Some (mkJob client action ticker price) ->
     slots p !! k = Some sl ->
     (Z.of_nat (slot_in_flight sl) <= concur_trades (self client))%Z).
Proof.
  intros Hcap. split.
  - intros s0 schedule sch Hrun.
    destruct (run_inv client action ticker price schedule _ _ (start_inv client s0 Hcap) Hrun)
      as (_ & Hpos & Hsum).
    lia.
  - intros jobs s schedule p k sl Hrun Hjob Hslot.
    assert (Forall2 slot_ok jobs (slots p)) as Hok.
    { eapply pool_run_ok; [|exact Hrun]. simpl. apply launch_all_ok. }
    pose proof (Forall2_lookup_lr _ _ _ _ _ _ Hok Hjob Hslot) as H.
    destruct sl as [permits ts|r]; simpl in *; [|lia].
    destruct H as (_ & Hpos & Hsum). lia.
Qed.

End Cap.

(** C6 on a backend with cap 2 and three accounts: two tasks enter, the
    third cannot. *)
Lemma semaphore_bounds_in_flight_witness :
  Strategy.run Double.ready2 "buy" "XYZ" 10%float (start Double.ready2 Double.s0)
    [Enter 2; Enter 1] = Some (mkSched 0 [Pending; InFlight; InFlight] Double.s0) /\
  (Z.of_nat (in_flight [Pending; InFlight; InFlight]) <= 2)%Z /\
  Strategy.run Double.ready2 "buy" "XYZ" 10%float (start Double.ready2 Double.s0)
    [Enter 2; Enter 1; Enter 0] = None.
Proof.
  split; [reflexivity|]. split; [|reflexivity].
  destruct (semaphore_bounds_in_flight Double.ready2 "buy" "XYZ" 10%float) as [Halone _].
  - vm_compute. discriminate.
  - apply (Halone Double.s0 [Enter 2; Enter 1]
             (mkSched 0 [Pending; InFlight; InFlight] Double.s0)).
    reflexivity.
Defined.

(** The bound does not hold of the placement calls for the backend: the
    semaphore is created by each invocation, and [execute_trades] gathers
    one invocation per confirmed trade.  With two confirmed trades for one
    backend whose cap is 1, the first task of each invocation can enter: two
    placement calls for that backend are in flight. *)
Lemma cap_exceeded_across_invocations :
  concur_trades (self Double.ready) = 1%Z /\
  map (fun jb => brokerage_name (self (job_client jb)))
      (jobs_of [Double.ready] [("XYZ", 10%float, "buy"); ("ABC", 10%float, "buy")])
    = ["Double"; "Double"] /\
  exists p,
    pool_run (jobs_of [Double.ready] [("XYZ", 10%float, "buy"); ("ABC", 10%float, "buy")])
      (launch_all (jobs_of [Double.ready] [("XYZ", 10%float, "buy"); ("ABC", 10%float, "buy")])
         Double.s0)
      [(0, Enter 0); (1, Enter 0)] = Some p /\
    map slot_in_flight (slots p) = [1; 1] /\
    pool_in_flight p = 2.
Proof.
  split; [reflexivity|]. split; [reflexivity|].
  eexists. split; [vm_compute; reflexivity|]. split; reflexivity.
Defined.

End BatchSpec.

(** * The further properties on the doubles *)

Module ExtraCases.
Import Base Strategy Workflow Batch.

(** X1 on the account table of the double. *)
Lemma account_number_lookup_case :
  get_account_number_from_id (accounts Double.client) "A2" = Some 2%Z /\
  get_account_number_from_id (accounts Double.client) "A9" = None.
Proof.
  destruct (BaseExtra.account_number_lookup (accounts Double.client) "A2") as (_ & _ & Hfound).
  destruct (BaseExtra.account_number_lookup (accounts Double.client) "A9") as (_ & Hnone & _).
  split.
  - apply Hfound.
    + simpl. repeat constructor; rewrite ?elem_of_cons, ?elem_of_nil; intuition discriminate.
    + simpl. right. left.
  - apply Hnone. simpl. rewrite !elem_of_cons, elem_of_nil. intuition discriminate.
Defined.

(** X2 on a buy for an account that already holds the ticker: one warning. *)
Lemma check_preconditions_warns_case :
  fst (check_preconditions Double.client Double.venue "A2" "XYZ" 10%float "buy" Double.s0)
    = Ret false /\
  exists l,
    trace (snd (check_preconditions Double.client Double.venue "A2" "XYZ" 10%float "buy"
                  Double.s0)) = trace Double.s0 ++ [Warning l].
Proof.
  split; [reflexivity|].
  exact (BaseExtra.check_preconditions_warns Double.client Double.venue "A2" "XYZ" 10%float
           "buy" Double.s0).
Defined.

(** X3 on a logged-out client of the raising venue. *)
Lemma unauthenticated_places_nothing_case :
  place_buy_orders Double.logged_out Double.failing_venue "A1" "XYZ" 10%float "market" Double.s0
    = (Ret false, mkState tt [Warning NotAuthenticated]) /\
  place_sell_orders Double.logged_out Double.failing_venue "A1" "XYZ" 10%float "market" Double.s0
    = (Ret false, mkState tt [Warning NotAuthenticated]).
Proof.
  exact (BaseExtra.unauthenticated_places_nothing Double.logged_out Double.failing_venue
           "A1" "XYZ" 10%float "market" Double.s0 eq_refl).
Defined.

(** X4 on an account of the double that does not hold the ticker. *)
Lemma buy_placed_iff_case :
  fst (place_buy_orders Double.client Double.venue "A1" "XYZ" 10%float "market" Double.s0)
    = Ret true.
Proof.
  apply (BaseExtra.buy_placed_iff Double.client Double.venue "A1" "XYZ" 10%float "market"
           Double.s0).
  split; [reflexivity|].
  exists tt, tt, tt, tt, tt. eexists _, _. repeat split; reflexivity.
Defined.

(** X5 on an account of the double that holds the ticker. *)
Lemma sell_placed_iff_case :
  fst (place_sell_orders Double.client Double.venue "A2" "XYZ" 10%float "market" Double.s0)
    = Ret true.
Proof.
  apply (BaseExtra.sell_placed_iff Double.client Double.venue "A2" "XYZ" 10%float "market"
           Double.s0).
  split; [reflexivity|].
  exists tt, tt, tt, tt. eexists. repeat split; reflexivity.
Defined.

(** X6 on the double, none of whose primitives raises. *)
Lemma wrappers_return_case :
  never_raises Double.venue /\
  exists b s',
    place_buy_orders Double.client Double.venue "A1" "XYZ" 10%float "market" Double.s0
      = (Ret b, s').
Proof.
  assert (never_raises Double.venue) as Hnr.
  { unfold never_raises, returns. repeat split; intros; eexists _, _; reflexivity. }
  split; [exact Hnr|].
  apply (BaseExtra.wrappers_return Double.client Double.venue "A1" "XYZ" 10%float
           "buy" "market" Double.s0 Hnr).
Defined.

(** X7: a capitalised side passes on an account that holds the ticker. *)
Lemma unknown_side_passes_case :
  check_preconditions Double.client Double.venue "A2" "XYZ" 10%float "BUY" Double.s0
    = (Ret true, Double.s0).
Proof.
  apply (BaseExtra.unknown_side_passes Double.client Double.venue "A2" "XYZ" 10%float
           "BUY" Double.s0 tt tt (Double.holdings_of "A2")).
  - discriminate.
  - discriminate.
  - split; [reflexivity|]. exists tt. split; reflexivity.
  - reflexivity.
Defined.

(** X8 on the double and on a backend without accounts. *)
Lemma verify_account_access_first_case :
  fst (_verify_account_access Double.ready Double.s0) = Ret true /\
  fst (_verify_account_access Cases.empty_handed Double.s0) = Ret false.
Proof.
  destruct (StrategyExtra.verify_account_access_first Double.ready Double.s0)
    as (b & s' & Hrun & Hiff).
  destruct (StrategyExtra.verify_account_access_first Cases.empty_handed Double.s0)
    as (b0 & s0' & Hrun0 & Hiff0).
  rewrite Hrun, Hrun0. simpl. split; f_equal.
  - apply Hiff. eexists _, _, _, _, _. split; reflexivity.
  - destruct b0; [|reflexivity].
    destruct Hiff0 as [Hacc _]. destruct (Hacc eq_refl) as (? & ? & ? & ? & ? & Hnil & _).
    discriminate Hnil.
Defined.

(** X9 on two backends that both succeed. *)
Lemma initialize_all_case :
  exists app',
    initialize (Double.says "no") Cases.full_app Double.s0 = (Ret (true, app'), Double.s0) /\
    authenticated_clients app' = [0; 1] /\
    initialized app' = true.
Proof.
  apply (StrategyExtra.initialize_all (Double.says "no") Cases.full_app Double.s0).
  - reflexivity.
  - discriminate.
  - vm_compute. reflexivity.
Defined.

(** X10 on the five backends of which two succeed, the operator declining. *)
Lemma initialize_outcome_case :
  exists app' s',
    initialize (Double.says "no") Double.mixed_app Double.s0 = (Ret (false, app'), s') /\
    initialized app' = false /\
    length (clients app') = 5 /\
    authenticated_clients app' = [0; 4].
Proof.
  destruct (initialize (Double.says "no") Double.mixed_app Double.s0)
    as [[[b app']|e] s'] eqn:Hrun; [|vm_compute in Hrun; discriminate].
  assert (b = false) as -> by (vm_compute in Hrun; congruence).
  destruct (StrategyExtra.initialize_outcome (Double.says "no") Double.mixed_app app'
              Double.s0 s' false eq_refl Hrun) as (Hflag & Hlen & Hauth & _).
  exists app', s'. repeat split; assumption.
Defined.

(** X11 on the same backends, the operator accepting. *)
Lemma initialize_again_case :
  exists app' s' after,
    initialize (Double.says "yes") Double.mixed_app Double.s0 = (Ret (true, app'), s') /\
    initialize (Double.says "yes") app' s' = (Ret (true, app'), after) /\
    world after = world s'.
Proof.
  destruct (initialize (Double.says "yes") Double.mixed_app Double.s0)
    as [[[b app']|e] s'] eqn:Hrun; [|vm_compute in Hrun; discriminate].
  assert (b = true) as -> by (vm_compute in Hrun; congruence).
  destruct (StrategyExtra.initialize_again (Double.says "yes") Double.mixed_app app'
              Double.s0 s' Hrun s') as (after & Hagain & Hworld).
  exists app', s', after. split; [reflexivity|]. split; [exact Hagain | exact Hworld].
Defined.

(** X12 on the double with three accounts. *)
Lemma execute_client_trades_bounds_case :
  exists k n s',
    execute_client_trades Double.ready "buy" "XYZ" 10%float Double.in_turn Double.s0
      = Some (Ret (k, n), s') /\
    n = 3 /\ k <= n.
Proof.
  destruct (execute_client_trades Double.ready "buy" "XYZ" 10%float Double.in_turn Double.s0)
    as [[[[k n]|e] s']|] eqn:Hrun; try (vm_compute in Hrun; discriminate).
  exists k, n, s'. split; [reflexivity|].
  exact (StrategyExtra.execute_client_trades_bounds Double.ready "buy" "XYZ" 10%float
           Double.in_turn Double.s0 s' k n Hrun).
Defined.

(** X13 on a backend with cap zero and one with a negative cap. *)
Lemma nonpositive_cap_case :
  execute_client_trades Cases.stalled "buy" "XYZ" 10%float Double.in_turn Double.s0 = None /\
  execute_client_trades Cases.negative "buy" "XYZ" 10%float Double.in_turn Double.s0
    = Some (Raise (Exception "Semaphore initial value must be >= 0"), Double.s0).
Proof.
  destruct (StrategyExtra.nonpositive_cap Cases.stalled "buy" "XYZ" 10%float Double.in_turn
              Double.s0) as [Hzero _]; [discriminate|].
  destruct (StrategyExtra.nonpositive_cap Cases.negative "buy" "XYZ" 10%float Double.in_turn
              Double.s0) as [_ Hneg]; [discriminate|].
  split; [apply Hzero; reflexivity | apply Hneg; reflexivity].
Defined.

(** X14 on the backend whose order submission raises. *)
Lemma placement_exception_aborts_case :
  exists e s',
    execute_client_trades Cases.broken "buy" "XYZ" 10%float
      [Enter 0; Leave 0; Enter 1; Leave 1] Double.s0 = Some (Raise e, s').
Proof.
  destruct (execute_client_trades Cases.broken "buy" "XYZ" 10%float
              [Enter 0; Leave 0; Enter 1; Leave 1] Double.s0)
    as [[r s']|] eqn:Hrun; [|vm_compute in Hrun; discriminate].
  destruct (run Cases.broken "buy" "XYZ" 10%float (start Cases.broken Double.s0)
              [Enter 0; Leave 0]) as [sch|] eqn:Hpre; [|vm_compute in Hpre; discriminate].
  destruct (StrategyExtra.placement_exception_aborts Cases.broken "buy" "XYZ" 10%float
              [Enter 0; Leave 0] [Enter 1; Leave 1] Double.s0 s' sch r) as [e ->].
  - discriminate.
  - exact Hpre.
  - vm_compute in Hpre. injection Hpre as <-. simpl. eauto.
  - exact Hrun.
  - exists e, s'. reflexivity.
Defined.


(** X16 on a backend one of whose balance queries raises. *)
Lemma balances_exception_aborts_case :
  exists e s',
    get_all_account_balances Cases.partial_app Double.s0 = (Raise e, s') /\
    trace s' = [].
Proof.
  apply (StrategyExtra.balances_exception_aborts Cases.partial_app Cases.unreachable "A2"
           Double.s0).
  - simpl. right. left.
  - simpl. right. left.
  - intros w. eexists _, _. reflexivity.
Defined.

(** X17 on a listing of three accounts. *)
Lemma account_table_numbers_case :
  Fennel.account_table ["F1"; "F2"; "F3"] = [(1%Z, "F1"); (2%Z, "F2"); (3%Z, "F3")] /\
  get_account_number_from_id (Fennel.account_table ["F1"; "F2"; "F3"]) "F3" = Some 3%Z.
Proof.
  split; [reflexivity|].
  destruct (FennelExtra.account_table_numbers ["F1"; "F2"; "F3"]) as (_ & _ & _ & Hnum).
  apply (Hnum ltac:(repeat constructor; rewrite ?elem_of_cons, ?elem_of_nil;
                    intuition discriminate) 2 "F3" eq_refl).
Defined.

(** X18 on a Fennel object whose login works and whose listing fails: the
    client is left authenticated without accounts. *)
Lemma fennel_authenticate_case :
  exists self',
    Fennel.authenticate Cases.fennel_no_listing Fennel.init tt = (Ret false, self', tt) /\
    authenticated self' = true /\
    accounts self' = [].
Proof.
  destruct (FennelExtra.fennel_authenticate Cases.fennel_no_listing Fennel.init tt)
    as (b & self' & w' & Hrun & _ & _ & _ & _ & Hhalf & _).
  destruct w'.
  destruct (Hhalf tt (Exception "listing failed") eq_refl eq_refl) as (-> & Hauth & Hacc).
  exists self'. auto.
Defined.

(** X19 on a Fennel object that answers orders with an error. *)
Lemma fennel_place_order_case :
  Fennel._place_buy_orders Cases.fennel_rejecting "F1" "XYZ" 10%float "market" tt
    = (Ret false, tt) /\
  exists r s',
    place_buy_orders Double.client (with_fennel_orders Double.venue Cases.fennel_rejecting)
      "A1" "XYZ" 10%float "market" Double.s0 = (Ret r, s').
Proof.
  split; [reflexivity|].
  destruct (FennelExtra.fennel_place_order Cases.fennel_rejecting Double.venue Double.client
              "A1" "XYZ" "buy" "market" 10%float tt) as (_ & _ & Hbuy & _).
  apply (Hbuy Double.s0 true Double.s0). reflexivity.
Defined.

(** X20 on an answer with blanks, mixed case and a trailing comma. *)
Lemma get_tickers_segments_case :
  get_tickers (Double.says " aapl, tsla ,Goog,") 3 Double.s0
    = (Ret ["AAPL"; "TSLA"; "GOOG"; ""], Double.s0) /\
  get_tickers (Double.says " aapl, tsla ,Goog,") 1 Double.s0
    = (Ret ["AAPL, TSLA ,GOOG,"], Double.s0).
Proof.
  assert (Forall (fun c => is_ascii c = true) (chars " aapl, tsla ,Goog,")) as Hascii.
  { repeat constructor. }
  destruct (WorkflowExtra.get_tickers_segments (Double.says " aapl, tsla ,Goog,") 3 Double.s0
              " aapl, tsla ,Goog," tt Hascii) as [Hlist _].
  destruct (WorkflowExtra.get_tickers_segments (Double.says " aapl, tsla ,Goog,") 1 Double.s0
              " aapl, tsla ,Goog," tt Hascii) as [_ Hone].
  split.
  - destruct (Hlist (or_introl eq_refl) eq_refl) as (segments & _ & Hrun & _).
    reflexivity.
  - apply (Hone ltac:(discriminate) ltac:(discriminate) eq_refl).
Defined.

(** X21 on an operator who types the action in capitals. *)
Lemma get_trade_action_first_case :
  fst (get_trade_action (Double.says "SELL") 1 Double.s0) = Ret (Some "sell") /\
  fst (get_trade_action (Double.says "hold") 5 Double.s0) = Ret None.
Proof.
  destruct (WorkflowExtra.get_trade_action_first (Double.says "SELL") 1 Double.s0) as [H1 _].
  destruct (WorkflowExtra.get_trade_action_first (Double.says "hold") 5 Double.s0) as [H2 _].
  split; [rewrite H1 | rewrite H2]; reflexivity.
Defined.

(** X22 on the double: a ticker of the venue, confirmed by the operator. *)
Lemma confirm_ticker_cases_case :
  fst (confirm_ticker (Cases.operator "no") Cases.quote Cases.two_decimals 1
         Double.ready "XYZ" Double.s0) = Ret (Some (Some ("XYZ", 10%float))).
Proof.
  destruct (WorkflowExtra.confirm_ticker_cases (Cases.operator "no") Cases.quote
              Cases.two_decimals 1 Double.ready "XYZ" Double.s0) as (_ & _ & Hyes & _).
  rewrite (Hyes tt tt 10%float eq_refl eq_refl). reflexivity.
Defined.

(** X23 on two tickers confirmed for one selected client. *)
Lemma confirm_trades_valid_case :
  confirm_trades (Cases.operator "no") Cases.quote Cases.two_decimals 1
    [Double.ready] ["XYZ"; "ABC"] [] Double.s0
    = (Ret (Some [("XYZ", 10%float, "buy"); ("ABC", 10%float, "buy")]), Double.s0) /\
  exists e,
    confirm_trades (Cases.operator "no") Cases.quote Cases.two_decimals 1
      [] ["XYZ"; "ABC"] [] Double.s0 = (Raise e, Double.s0).
Proof.
  split; [reflexivity|].
  destruct (BatchExtra.confirm_trades_valid (Cases.operator "no") Cases.quote
              Cases.two_decimals 1 [] ["XYZ"; "ABC"]) as [_ Hraise].
  apply Hraise; [reflexivity | discriminate].
Defined.

(** X24 on an operator who declines the final question. *)
Lemma execute_trades_not_dispatched_case :
  execute_trades (Cases.operator "No") Cases.quote Cases.two_decimals 1 Cases.interleaved
    [Double.ready] ["XYZ"; "ABC"] Double.s0 = Some (Ret Cancelled, Double.s0).
Proof.
  destruct (BatchExtra.execute_trades_not_dispatched (Cases.operator "No") Cases.quote
              Cases.two_decimals 1 Cases.interleaved [Double.ready] ["XYZ"; "ABC"]
              Double.s0 Double.s0) as [_ Hcancel].
  apply (Hcancel [("XYZ", 10%float, "buy"); ("ABC", 10%float, "buy")] "No" tt).
  - reflexivity.
  - discriminate.
  - reflexivity.
  - discriminate.
Defined.

(** X25 on two trades for one backend with three accounts. *)
Lemma execute_trades_totals_case :
  exists k n s',
    execute_trades (Cases.operator "yes") Cases.quote Cases.two_decimals 1 Cases.interleaved
      [Double.ready] ["XYZ"; "ABC"] Double.s0 = Some (Ret (Executed k n), s') /\
    k <= n /\ n = 6.
Proof.
  destruct (execute_trades (Cases.operator "yes") Cases.quote Cases.two_decimals 1
              Cases.interleaved [Double.ready] ["XYZ"; "ABC"] Double.s0)
    as [[[[| |k n]|e] s']|] eqn:Hrun; try (vm_compute in Hrun; discriminate).
  exists k, n, s'. split; [reflexivity|].
  destruct (BatchExtra.execute_trades_totals (Cases.operator "yes") Cases.quote
              Cases.two_decimals 1 Cases.interleaved [Double.ready] ["XYZ"; "ABC"]
              Double.s0 s' k n Hrun) as (Hle & confirmed & s1 & Hc & Hn).
  split; [exact Hle|]. vm_compute in Hc. injection Hc as <- _. exact Hn.
Defined.

(** X26 on two trades for one backend whose cap is 1: two placement calls
    of that backend are in flight. *)
Lemma cap_is_per_invocation_case :
  concur_trades (self Double.ready) = 1%Z /\
  exists p,
    pool_run (jobs_of [Double.ready] [("XYZ", 10%float, "buy"); ("ABC", 10%float, "buy")])
      (launch_all (jobs_of [Double.ready] [("XYZ", 10%float, "buy"); ("ABC", 10%float, "buy")])
         Double.s0)
      [(0, Enter 0); (1, Enter 0)] = Some p /\
    pool_in_flight p = 2.
Proof.
  split; [reflexivity|].
  destruct (BatchExtra.cap_is_per_invocation
              (jobs_of [Double.ready] [("XYZ", 10%float, "buy"); ("ABC", 10%float, "buy")])
              Double.s0) as [_ Hreach].
  destruct Hreach as (p & Hrun & Hflight & _).
  - repeat constructor; discriminate.
  - exists p. split; [exact Hrun | exact Hflight].
Defined.

End ExtraCases.
